(** * create_example_csv.py: synthetic environmental sensor data

    A shallow embedding of [data/create_example_csv.py] and the properties
    of the CSV file it produces.

    The script has no inputs of its own; all it reads comes from its
    environment: the [random] module, [os.urandom] (through [uuid.uuid4]),
    the wall clock and the file system.  These are modelled as oracles
    (streams indexed by the number of the call); the script is a
    computation in a state-and-exception monad over them. *)

From Stdlib Require Import ZArith QArith List String Ascii Bool Arith Lia.
From Stdlib Require Import DecimalString.
Import ListNotations.

Local Open Scope string_scope.
Local Open Scope list_scope.
Local Open Scope Z_scope.

(** ** Python values that reach the CSV writer *)

(** A float is kept only in the form [round(_, 2)] returns it: the double
    nearest to [c / 100] for an integer [c], which [repr] prints as the
    shortest decimal for [c / 100]. *)
Inductive value : Type :=
| VStr (s : string)
| VInt (z : Z)
| VFloat (cents : Z)
| VUuid (int : Z).

Inductive exn : Type := OSError | IndexError | KeyError.

Inductive outcome (A : Type) : Type :=
| Ok (a : A)
| Raise (e : exn).
Arguments Ok {A} a.
Arguments Raise {A} e.

(** ** The environment *)

Inductive io_event : Type :=
| EvOpen (path : string) (ok : bool)
| EvWrite (data : string) (ok : bool)
| EvClose (ok : bool).

(** What the script does not control.  [rand_src n] is the outcome of the
    n-th request to the [random] module's generator (reduced into the
    requested range by the caller), [entropy_src n] the n-th
    [os.urandom(16)] read as an integer, [clock_src n] the n-th reading of
    [time.time()], [io_ok n] whether the n-th file operation (the open, a
    write call, the close) returns or raises.  The file is buffered: what a
    write call hands over reaches the disk at a later flush, and a call
    raises when the flush it triggers fails.  [disk_room] is the number of
    bytes that reached the disk in a run in which some operation failed. *)
Record Sources : Type := mkSources {
  rand_src : nat -> Z;
  entropy_src : nat -> Z;
  clock_src : nat -> Q;
  io_ok : nat -> bool;
  disk_room : nat
}.

Record World : Type := mkWorld {
  env : Sources;
  rand_pos : nat;
  entropy_pos : nat;
  clock_pos : nat;
  io_pos : nat;
  io_trace : list io_event;      (* file operations so far, oldest first *)
  csv_rows : list (list value)   (* rows the csv writer has written *)
}.

Definition boot (s : Sources) : World := mkWorld s 0 0 0 0 [] [].

(** ** The monad *)

Definition M (A : Type) : Type := World -> outcome A * World.

Definition ret {A} (a : A) : M A := fun w => (Ok a, w).

Definition raise {A} (e : exn) : M A := fun w => (Raise e, w).

Definition bind {A B} (m : M A) (k : A -> M B) : M B :=
  fun w => match m w with
           | (Ok a, w') => k a w'
           | (Raise e, w') => (Raise e, w')
           end.

Declare Scope py_scope.
Delimit Scope py_scope with py.
Notation "x <- m ;; k" := (bind m (fun x => k))
  (at level 100, m at next level, right associativity) : py_scope.
Notation "m ;; k" := (bind m (fun _ => k))
  (at level 100, right associativity) : py_scope.
Local Open Scope py_scope.

(** ** Library primitives *)

Module Random.

(** One outcome of the generator. *)
Definition draw : M Z := fun w =>
  (Ok (rand_src (env w) (rand_pos w)),
   mkWorld (env w) (S (rand_pos w)) (entropy_pos w) (clock_pos w)
           (io_pos w) (io_trace w) (csv_rows w)).

(** [random._randbelow(n)]: an integer in [0, n). *)
Definition randbelow (n : Z) : M Z := d <- draw ;; ret (d mod n).

(** [random.randint(a, b)]: [a + randbelow(b - a + 1)]. *)
Definition randint (a b : Z) : M Z := r <- randbelow (b - a + 1) ;; ret (a + r).

(** [random.choice(seq)]: [seq[randbelow(len(seq))]]; IndexError on an
    empty sequence. *)
Definition choice {A} (xs : list A) : M A :=
  match xs with
  | [] => raise IndexError
  | x :: _ =>
      i <- randbelow (Z.of_nat (List.length xs)) ;;
      ret (nth (Z.to_nat i) xs x)
  end.

(** [random.random()]: a double [k * 2^-53] with [0 <= k < 2^53]; the
    result is the numerator [k]. *)
Definition random : M Z := d <- draw ;; ret (d mod 2 ^ 53).

End Random.

Module Float.

(** Doubles in the range the script reaches are written as integers in
    units of 2^-53. *)

(** The integer nearest to [n / d], ties to the even one ([0 < d]). *)
Definition round_half_even (n d : Z) : Z :=
  let q := n / d in
  let r := n mod d in
  if 2 * r <? d then q
  else if d <? 2 * r then q + 1
  else if Z.even q then q else q + 1.

(** [x * c] for a double [x = k * 2^-53] and an integer-valued double
    [c]: the exact product, rounded to 53 significant bits. *)
Definition mul (k c : Z) : Z :=
  let p := k * c in
  let e := Z.log2 p + 1 - 53 in
  if e <=? 0 then p else round_half_even p (2 ^ e) * 2 ^ e.

(** [round(x, 2)]: the exact value of [x] rounded half-even to two
    decimals; the result counts hundredths. *)
Definition round2 (x : Z) : Z := round_half_even (x * 100) (2 ^ 53).

(** [int(x)] for a float read as a rational: truncation toward zero. *)
Definition to_int (x : Q) : Z := Z.quot (Qnum x) (Zpos (Qden x)).

End Float.

Module PyTime.

(** [time.time()] *)
Definition time : M Q := fun w =>
  (Ok (clock_src (env w) (clock_pos w)),
   mkWorld (env w) (rand_pos w) (entropy_pos w) (S (clock_pos w))
           (io_pos w) (io_trace w) (csv_rows w)).

End PyTime.

Module Uuid.

Definition urandom16 : M Z := fun w =>
  (Ok (entropy_src (env w) (entropy_pos w) mod 2 ^ 128),
   mkWorld (env w) (rand_pos w) (S (entropy_pos w)) (clock_pos w)
           (io_pos w) (io_trace w) (csv_rows w)).

(** [UUID(bytes=..., version=4)]: RFC 4122 variant and version bits. *)
Definition set_version4 (int : Z) : Z :=
  let int := Z.land int (Z.lnot (Z.shiftl 0xc000 48)) in
  let int := Z.lor int (Z.shiftl 0x8000 48) in
  let int := Z.land int (Z.lnot (Z.shiftl 0xf000 64)) in
  Z.lor int (Z.shiftl 4 76).

(** [uuid.uuid4()] *)
Definition uuid4 : M Z := b <- urandom16 ;; ret (set_version4 b).

End Uuid.

(** ** Text forms *)

Module Text.

Definition digit (d : Z) : ascii := ascii_of_nat (48 + Z.to_nat d).

(** [str(n)] for an int *)
Definition str_int (z : Z) : string :=
  DecimalString.NilZero.string_of_int (Z.to_int z).

Definition hex_digit (d : Z) : ascii :=
  if d <? 10 then ascii_of_nat (48 + Z.to_nat d)
  else ascii_of_nat (87 + Z.to_nat d).

(** ['%0nx' % z] for [0 <= z < 16^n] *)
Fixpoint hex_fixed (n : nat) (z : Z) : string :=
  match n with
  | O => EmptyString
  | S n' =>
      String (hex_digit (Z.shiftr z (4 * Z.of_nat n') mod 16)) (hex_fixed n' z)
  end.

(** [str(u)] for a UUID: the 32 hex digits grouped 8-4-4-4-12 *)
Definition str_uuid (int : Z) : string :=
  let hex := hex_fixed 32 int in
  (substring 0 8 hex ++ "-" ++ substring 8 4 hex ++ "-" ++
   substring 12 4 hex ++ "-" ++ substring 16 4 hex ++ "-" ++
   substring 20 12 hex)%string.

(** [repr(x)] for the double nearest to [c / 100], of magnitude below
    1e16: the shortest decimal that reads back as [x], with at least
    one fractional digit. *)
Definition repr_float (c : Z) : string :=
  let a := Z.abs c in
  let f := a mod 100 in
  let sign := if c <? 0 then "-" else "" in
  let frac :=
    if f mod 10 =? 0 then String (digit (f / 10)) EmptyString
    else String (digit (f / 10)) (String (digit (f mod 10)) EmptyString) in
  (sign ++ str_int (a / 100) ++ "." ++ frac)%string.

Definition str (v : value) : string :=
  match v with
  | VStr s => s
  | VInt z => str_int z
  | VFloat c => repr_float c
  | VUuid u => str_uuid u
  end.

End Text.

(** ** Files *)

Module File.

(** One file operation: it is recorded, and fails with OSError when the
    environment says so. *)
Definition io_step (ev : bool -> io_event) : M unit := fun w =>
  let ok := io_ok (env w) (io_pos w) in
  (if ok then Ok tt else Raise OSError,
   mkWorld (env w) (rand_pos w) (entropy_pos w) (clock_pos w)
           (S (io_pos w)) (io_trace w ++ [ev ok]) (csv_rows w)).

Definition open_w (path : string) : M unit := io_step (EvOpen path).
Definition write (data : string) : M unit := io_step (EvWrite data).
Definition close : M unit := io_step EvClose.

(** [with open(path, 'w') as f: body].  The body runs only once the file
    is open; the file is closed when the body returns and when it
    raises, and an exception leaves the block after the close. *)
Definition with_open (path : string) (body : M unit) : M unit := fun w =>
  match open_w path w with
  | (Raise e, w1) => (Raise e, w1)
  | (Ok _, w1) =>
      match body w1 with
      | (Ok _, w2) => close w2
      | (Raise e, w2) =>
          match close w2 with
          | (Ok _, w3) => (Raise e, w3)
          | (Raise e', w3) => (Raise e', w3)
          end
      end
  end.

End File.

(** ** The csv writer (dialect [excel]) *)

Module Csv.

Definition delimiter : ascii := ","%char.
Definition quotechar : ascii := "034"%char.
Definition CR : ascii := "013"%char.
Definition LF : ascii := "010"%char.
Definition lineterminator : string := String CR (String LF EmptyString).

Definition special (c : ascii) : bool :=
  Ascii.eqb c delimiter || Ascii.eqb c quotechar ||
  Ascii.eqb c CR || Ascii.eqb c LF.

Fixpoint needs_quote (s : string) : bool :=
  match s with
  | EmptyString => false
  | String c s' => special c || needs_quote s'
  end.

Fixpoint double_quotes (s : string) : string :=
  match s with
  | EmptyString => EmptyString
  | String c s' =>
      if Ascii.eqb c quotechar then String c (String c (double_quotes s'))
      else String c (double_quotes s')
  end.

(** QUOTE_MINIMAL: a field is quoted only when it holds a special
    character. *)
Definition field (s : string) : string :=
  if needs_quote s
  then String quotechar (double_quotes s ++ String quotechar EmptyString)
  else s.

(** One record; a record made of a single empty field is written as an
    empty quoted field. *)
Definition line (fields : list string) : string :=
  let joined :=
    (String.concat (String delimiter EmptyString) (map field fields)
     ++ lineterminator)%string in
  match fields with
  | [f] =>
      match f with
      | EmptyString => String quotechar (String quotechar lineterminator)
      | _ => joined
      end
  | _ => joined
  end.

Definition log_row (row : list value) : M unit := fun w =>
  (Ok tt,
   mkWorld (env w) (rand_pos w) (entropy_pos w) (clock_pos w)
           (io_pos w) (io_trace w) (csv_rows w ++ [row])).

(** [writer.writerow(row)]: every cell goes through [str], the record is
    assembled and handed to the file in one [write]. *)
Definition writerow (row : list value) : M unit :=
  File.write (line (map Text.str row)) ;;
  log_row row.

End Csv.

(** ** The script *)

(** A generator: the suspended computations of its successive values. *)
Definition generator (A : Type) : Type := list (M A).

(** [for x in g: body] pulls one value, runs the body, and goes on. *)
Fixpoint for_in {A} (g : generator A) (body : A -> M unit) : M unit :=
  match g with
  | [] => ret tt
  | pull :: g' => x <- pull ;; body x ;; for_in g' body
  end.

Definition gen_uuids (count : nat) : generator Z :=
  map (fun _ => Uuid.uuid4) (seq 0 count).

Definition locations : list (string * list string) :=
  [ ("TX", ["Austin"; "San Antonio"]);
    ("CA", ["Berkely"; "Las Angeles"; "San Diego"]);
    ("VT", ["Burlington"; "St. Albans"]) ].

(** [d[key]] on a dict kept in insertion order *)
Fixpoint getitem (d : list (string * list string)) (key : string)
  : M (list string) :=
  match d with
  | [] => raise KeyError
  | (k, v) :: d' => if String.eqb k key then ret v else getitem d' key
  end.

Definition random_geoLocation : M string :=
  state <- Random.choice (map fst locations) ;;
  cities <- getitem locations state ;;
  city <- Random.choice cities ;;
  ret ("Earth" ++ "-" ++ "US" ++ "-" ++ state ++ "-" ++ city)%string.

Definition random_time : M Z :=
  now <- PyTime.time ;;
  r <- Random.randint 100 10000 ;;
  ret (Float.to_int now - r).

Definition random_tempC : M Z :=
  x <- Random.random ;;
  ret (Float.round2 (Float.mul x 120)).

Definition random_humidityPct : M Z := Random.randint 0 100.

Definition random_pressurePa : M Z := Random.randint 100000 105000.

Definition random_expiry (startEpochS : Z) : M Z :=
  r <- Random.randint 60 600 ;;
  Random.choice [0; 0; 0; startEpochS + r].

Definition fields : list string :=
  ["userId"; "deviceId"; "eventId"; "geoLocation"; "epochS"; "expiry";
   "tempC"; "humidityPct"; "pressurePa"].

Definition path : string := "example_environments.csv".

Definition event (userId deviceId : Z) (geoLocation : string) (eventId : Z)
  : M unit :=
  epochS <- random_time ;;
  expiry <- random_expiry epochS ;;
  tempC <- random_tempC ;;
  humidityPct <- random_humidityPct ;;
  pressurePa <- random_pressurePa ;;
  Csv.writerow [VUuid userId; VUuid deviceId; VUuid eventId; VStr geoLocation;
                VInt epochS; VInt expiry; VFloat tempC; VInt humidityPct;
                VInt pressurePa].

Definition device (userId deviceId : Z) : M unit :=
  geoLocation <- random_geoLocation ;;
  for_in (gen_uuids 10) (event userId deviceId geoLocation).

Definition user (userId : Z) : M unit :=
  for_in (gen_uuids 2) (device userId).

Definition main : M unit :=
  File.with_open path
    (Csv.writerow (map VStr fields) ;;
     for_in (gen_uuids 4) user).

Definition run (s : Sources) : outcome unit * World := main (boot s).

(** The payloads of the write calls that returned, in order. *)
Definition written (tr : list io_event) : list string :=
  flat_map (fun ev => match ev with EvWrite d true => [d] | _ => [] end) tr.

(** The payloads of all write calls, the one that raised included: its text
    had joined the buffer before the flush failed. *)
Definition handed (tr : list io_event) : list string :=
  flat_map (fun ev => match ev with EvWrite d _ => [d] | _ => [] end) tr.

Definition ev_ok (ev : io_event) : bool :=
  match ev with
  | EvOpen _ ok => ok
  | EvWrite _ ok => ok
  | EvClose ok => ok
  end.

Definition is_open (ev : io_event) : bool :=
  match ev with EvOpen _ _ => true | _ => false end.

Definition is_close (ev : io_event) : bool :=
  match ev with EvClose _ => true | _ => false end.

(** The bytes of the file after the operations [tr].  A file that was never
    opened holds nothing of this run.  Once every operation has succeeded
    and the file is closed, it holds all that the write calls handed over.
    Otherwise it holds the first [disk_room] bytes of what was handed over:
    the buffer is flushed in order, so the disk always has a byte prefix,
    which may stop inside a record. *)
Definition file_contents (s : Sources) (tr : list io_event) : option string :=
  match tr with
  | EvOpen _ true :: _ =>
      if forallb ev_ok tr && existsb is_close tr
      then Some (String.concat "" (written tr))
      else Some (substring 0 (disk_room s) (String.concat "" (handed tr)))
  | _ => None
  end.

(** ** Reading rows back *)

Record Event : Type := mkEvent {
  userId : Z;
  deviceId : Z;
  eventId : Z;
  geoLocation : string;
  epochS : Z;
  expiry : Z;
  tempC : Z;          (* hundredths of a degree *)
  humidityPct : Z;
  pressurePa : Z
}.

Definition cells (ev : Event) : list value :=
  [VUuid (userId ev); VUuid (deviceId ev); VUuid (eventId ev);
   VStr (geoLocation ev); VInt (epochS ev); VInt (expiry ev);
   VFloat (tempC ev); VInt (humidityPct ev); VInt (pressurePa ev)].

(** The rows after the header. *)
Definition data_rows (w : World) : list (list value) := tl (csv_rows w).

(** ** A sample environment *)

Definition demo : Sources :=
  mkSources (fun n => Z.of_nat n * 7919 * 104729 * 1299709 * 15485863 + 13)
            (fun n => Z.of_nat n * 0x9e3779b97f4a7c15f39cc0605cedc834 + 77)
            (fun n => (1790000000 + Z.of_nat n # 1)%Q)
            (fun _ => true) 0%nat.

(** * Closed forms

    What each part of the script computes, as a function of the
    environment and of the positions reached in its streams. *)

Section ClosedForm.

Variable s : Sources.

(** The result of the [uuid.uuid4()] call that consumes entropy block
    [i]. *)
Definition uuid_at (i : nat) : Z :=
  Uuid.set_version4 (entropy_src s i mod 2 ^ 128).

Definition state_at (rp : nat) : string :=
  nth (Z.to_nat (rand_src s rp mod 3)) (map fst locations) "TX".

Definition cities_of (state : string) : list string :=
  match find (fun kv => String.eqb (fst kv) state) locations with
  | Some kv => snd kv
  | None => []
  end.

(** The location drawn with outcomes [rp] and [rp + 1]. *)
Definition geo_at (rp : nat) : string :=
  let state := state_at rp in
  let cities := cities_of state in
  let city :=
    nth (Z.to_nat (rand_src s (S rp) mod Z.of_nat (List.length cities)))
        cities (hd "" cities) in
  ("Earth" ++ "-" ++ "US" ++ "-" ++ state ++ "-" ++ city)%string.

Definition offset_at (rp : nat) : Z := 100 + rand_src s rp mod 9901.

Definition epochS_at (rp cp : nat) : Z :=
  Float.to_int (clock_src s cp) - offset_at rp.

Definition ttl_at (rp : nat) : Z := 60 + rand_src s (1 + rp) mod 541.

Definition expiry_at (rp cp : nat) : Z :=
  nth (Z.to_nat (rand_src s (2 + rp) mod 4))
      [0; 0; 0; epochS_at rp cp + ttl_at rp] 0.

Definition tempC_at (rp : nat) : Z :=
  Float.round2 (Float.mul (rand_src s (3 + rp) mod 2 ^ 53) 120).

Definition humidityPct_at (rp : nat) : Z := 0 + rand_src s (4 + rp) mod 101.

Definition pressurePa_at (rp : nat) : Z :=
  100000 + rand_src s (5 + rp) mod 5001.

(** The event written by the loop body entered with the random stream at
    [rp] and the clock at [cp], for identifiers drawn from entropy
    blocks [ue], [de], [ee] and a location drawn at [gp]. *)
Definition event_at (ue de ee gp rp cp : nat) : Event :=
  mkEvent (uuid_at ue) (uuid_at de) (uuid_at ee) (geo_at gp)
          (epochS_at rp cp) (expiry_at rp cp) (tempC_at rp)
          (humidityPct_at rp) (pressurePa_at rp).

Definition ok_write (row : list value) : io_event :=
  EvWrite (Csv.line (map Text.str row)) true.

Definition bad_write (row : list value) : io_event :=
  EvWrite (Csv.line (map Text.str row)) false.

(** The world once the file is open and [rows] have been written. *)
Definition written_at (rp ep cp : nat) (rows : list (list value)) : World :=
  mkWorld s rp ep cp (S (List.length rows))
          (EvOpen path true :: map ok_write rows) rows.

(** The world once the write of [row] has failed. *)
Definition failed_at (rp ep cp : nat) (rows : list (list value))
           (row : list value) : World :=
  mkWorld s rp ep cp (S (S (List.length rows)))
          (EvOpen path true :: map ok_write rows ++ [bad_write row]) rows.

Lemma writerow_at rp ep cp rows row :
  Csv.writerow row (written_at rp ep cp rows) =
  if io_ok s (S (List.length rows))
  then (Ok tt, written_at rp ep cp (rows ++ [row]))
  else (Raise OSError, failed_at rp ep cp rows row).
Proof.
  cbv [Csv.writerow File.write File.io_step bind Csv.log_row written_at
       failed_at env io_pos rand_pos entropy_pos clock_pos io_trace csv_rows].
  destruct (io_ok s (S (List.length rows))).
  - rewrite length_app, map_app. simpl. rewrite Nat.add_1_r. reflexivity.
  - reflexivity.
Qed.

Lemma uuid4_at rp ep cp rows :
  Uuid.uuid4 (written_at rp ep cp rows) =
  (Ok (uuid_at ep), written_at rp (S ep) cp rows).
Proof. reflexivity. Qed.

Lemma random_time_at rp ep cp rows :
  random_time (written_at rp ep cp rows) =
  (Ok (epochS_at rp cp), written_at (S rp) ep (S cp) rows).
Proof. reflexivity. Qed.

Lemma random_expiry_at t rp ep cp rows :
  random_expiry t (written_at rp ep cp rows) =
  (Ok (nth (Z.to_nat (rand_src s (S rp) mod 4))
           [0; 0; 0; t + (60 + rand_src s rp mod 541)] 0),
   written_at (2 + rp) ep cp rows).
Proof. reflexivity. Qed.

Lemma random_tempC_at rp ep cp rows :
  random_tempC (written_at rp ep cp rows) =
  (Ok (Float.round2 (Float.mul (rand_src s rp mod 2 ^ 53) 120)),
   written_at (S rp) ep cp rows).
Proof. reflexivity. Qed.

Lemma random_humidityPct_at rp ep cp rows :
  random_humidityPct (written_at rp ep cp rows) =
  (Ok (0 + rand_src s rp mod 101), written_at (S rp) ep cp rows).
Proof. reflexivity. Qed.

Lemma random_pressurePa_at rp ep cp rows :
  random_pressurePa (written_at rp ep cp rows) =
  (Ok (100000 + rand_src s rp mod 5001), written_at (S rp) ep cp rows).
Proof. reflexivity. Qed.

Lemma bind_ok {A B} (m : M A) (k : A -> M B) w a w' :
  m w = (Ok a, w') -> bind m k w = k a w'.
Proof. unfold bind. intros ->. reflexivity. Qed.

Lemma bind_raise {A B} (m : M A) (k : A -> M B) w e w' :
  m w = (Raise e, w') -> bind m k w = (Raise e, w').
Proof. unfold bind. intros ->. reflexivity. Qed.

Lemma event_written ue de ee gp rp ep cp rows :
  event (uuid_at ue) (uuid_at de) (geo_at gp) (uuid_at ee)
        (written_at rp ep cp rows) =
  if io_ok s (S (List.length rows))
  then (Ok tt, written_at (6 + rp) ep (S cp)
                          (rows ++ [cells (event_at ue de ee gp rp cp)]))
  else (Raise OSError,
        failed_at (6 + rp) ep (S cp) rows
                  (cells (event_at ue de ee gp rp cp))).
Proof.
  unfold event.
  rewrite (bind_ok _ _ _ _ _ (random_time_at _ _ _ _)).
  rewrite (bind_ok _ _ _ _ _ (random_expiry_at _ _ _ _ _)).
  rewrite (bind_ok _ _ _ _ _ (random_tempC_at _ _ _ _)).
  rewrite (bind_ok _ _ _ _ _ (random_humidityPct_at _ _ _ _)).
  rewrite (bind_ok _ _ _ _ _ (random_pressurePa_at _ _ _ _)).
  apply writerow_at.
Qed.

Lemma random_geoLocation_at rp ep cp rows :
  random_geoLocation (written_at rp ep cp rows) =
  (Ok (geo_at rp), written_at (2 + rp) ep cp rows).
Proof.
  unfold random_geoLocation, geo_at, state_at.
  rewrite (bind_ok _ _ _
             (nth (Z.to_nat (rand_src s rp mod 3)) (map fst locations) "TX")
             (written_at (S rp) ep cp rows)) by reflexivity.
  pose proof (Z.mod_pos_bound (rand_src s rp) 3 eq_refl) as Hm.
  set (m := rand_src s rp mod 3) in *.
  assert (m = 0 \/ m = 1 \/ m = 2) as [-> | [-> | ->]] by lia;
    reflexivity.
Qed.

(** ** Loops *)

Definition triple {A} (P : World -> Prop) (m : M A)
           (Q : A -> World -> Prop) (E : exn -> World -> Prop) : Prop :=
  forall w, P w ->
    match m w with
    | (Ok a, w') => Q a w'
    | (Raise e, w') => E e w'
    end.

Lemma gen_uuids_repeat n : gen_uuids n = repeat Uuid.uuid4 n.
Proof.
  unfold gen_uuids. generalize 0%nat.
  induction n as [|n IH]; intros a; simpl; [reflexivity|].
  now rewrite IH.
Qed.

Lemma for_in_rule {A} (pull : M A) (body : A -> M unit)
      (I : nat -> World -> Prop) (E : exn -> World -> Prop) n :
  (forall i, (i < n)%nat ->
             triple (I i) (x <- pull ;; body x) (fun _ => I (S i)) E) ->
  triple (I 0%nat) (for_in (repeat pull n) body) (fun _ => I n) E.
Proof.
  revert I. induction n as [|n IH]; intros I Hstep w Hw; simpl.
  - exact Hw.
  - specialize (Hstep 0%nat (Nat.lt_0_succ n) w Hw) as H0.
    unfold bind in *.
    destruct (pull w) as [[x|e] w1]; [|exact H0].
    destruct (body x w1) as [[[]|e] w2]; [|exact H0].
    apply (IH (fun i => I (S i))); [|exact H0].
    intros i Hi. apply Hstep. lia.
Qed.

(** Every file operation up to the write of row number [n] succeeded. *)
Definition oks (n : nat) : Prop :=
  forall i, (i <= n)%nat -> io_ok s i = true.

Definition Good (rp ep cp : nat) (rows : list (list value)) (w : World)
  : Prop :=
  w = written_at rp ep cp rows /\ oks (List.length rows).

(** The run stopped at the first write that failed, on the way to
    writing [target]. *)
Definition Bad (target : list (list value)) (e : exn) (w : World) : Prop :=
  e = OSError /\
  exists rp ep cp done row rest,
    w = failed_at rp ep cp done row /\
    target = done ++ row :: rest /\
    oks (List.length done) /\
    io_ok s (S (List.length done)) = false.

Lemma oks_snoc rows (row : list value) :
  oks (List.length rows) -> io_ok s (S (List.length rows)) = true ->
  oks (List.length (rows ++ [row])).
Proof.
  intros Hok Hlast i Hi. rewrite length_app in Hi. simpl in Hi.
  destruct (Nat.eq_dec i (S (List.length rows))) as [->|Hne].
  - exact Hlast.
  - apply Hok. lia.
Qed.

Lemma event_step ue de gp rp ep cp rows rest :
  triple (Good rp ep cp rows)
         (x <- Uuid.uuid4 ;; event (uuid_at ue) (uuid_at de) (geo_at gp) x)
         (fun _ => Good (6 + rp) (S ep) (S cp)
                        (rows ++ [cells (event_at ue de ep gp rp cp)]))
         (Bad (rows ++ cells (event_at ue de ep gp rp cp) :: rest)).
Proof.
  intros w [-> Hok].
  rewrite (bind_ok _ _ _ _ _ (uuid4_at _ _ _ _)), event_written.
  destruct (io_ok s (S (List.length rows))) eqn:Hio.
  - split; [reflexivity|]. now apply oks_snoc.
  - split; [reflexivity|].
    exists (6 + rp)%nat, (S ep), (S cp), rows,
      (cells (event_at ue de ep gp rp cp)), rest.
    repeat split; assumption.
Qed.

(** The ten events of one device: its identifier is entropy block [de],
    its location is drawn at [gp], its events follow. *)
Definition device_events (ue de gp cp : nat) (n : nat) : list (list value) :=
  map (fun j => cells (event_at ue de (j + 1 + de) gp (6 * j + 2 + gp) (j + cp)))
      (seq 0 n).

Lemma seq_snoc n : seq 0 (S n) = seq 0 n ++ [n].
Proof. now rewrite seq_S. Qed.

Lemma flat_map_single {A B} (f : A -> list B) x : flat_map f [x] = f x.
Proof. simpl. apply app_nil_r. Qed.

Lemma map_seq_split {A} (f : nat -> A) i n :
  (i < n)%nat ->
  map f (seq 0 n) = map f (seq 0 i) ++ f i :: map f (seq (S i) (n - S i)).
Proof.
  intros Hi. replace n with (i + S (n - S i))%nat at 1 by lia.
  rewrite seq_app, map_app. simpl. reflexivity.
Qed.

Lemma device_step ue rp ep cp rows rest :
  triple (Good rp ep cp rows)
         (x <- Uuid.uuid4 ;; device (uuid_at ue) x)
         (fun _ => Good (62 + rp) (11 + ep) (10 + cp)
                        (rows ++ device_events ue ep rp cp 10))
         (Bad (rows ++ device_events ue ep rp cp 10 ++ rest)).
Proof.
  intros w [-> Hok].
  rewrite (bind_ok _ _ _ _ _ (uuid4_at _ _ _ _)). unfold device.
  rewrite (bind_ok _ _ _ _ _ (random_geoLocation_at _ _ _ _)).
  rewrite gen_uuids_repeat.
  apply (for_in_rule Uuid.uuid4
           (event (uuid_at ue) (uuid_at ep) (geo_at rp))
           (fun i => Good (6 * i + 2 + rp) (i + 1 + ep) (i + cp)
                          (rows ++ device_events ue ep rp cp i))).
  - intros i Hi w [-> Hoki].
    pose proof (event_step ue ep rp (6 * i + 2 + rp) (i + 1 + ep) (i + cp)
                  (rows ++ device_events ue ep rp cp i)
                  (map (fun j => cells (event_at ue ep (j + 1 + ep) rp
                                          (6 * j + 2 + rp) (j + cp)))
                       (seq (S i) (10 - S i)) ++ rest)
                  _ (conj eq_refl Hoki)) as H.
    destruct (bind Uuid.uuid4 _ _) as [[[]|e] w'].
    + unfold device_events.
      rewrite seq_snoc, map_app, app_assoc. cbn [map].
      destruct H as [-> H]. split; [|exact H].
      f_equal; lia.
    + unfold device_events.
      rewrite (map_seq_split _ i 10 Hi), <- !app_assoc.
      unfold device_events in H. rewrite <- app_assoc in H. exact H.
  - split; [|rewrite app_nil_r; exact Hok].
    unfold device_events. simpl. rewrite app_nil_r. reflexivity.
Qed.

Lemma flat_map_seq_split {A} (f : nat -> list A) i n :
  (i < n)%nat ->
  flat_map f (seq 0 n) =
  flat_map f (seq 0 i) ++ f i ++ flat_map f (seq (S i) (n - S i)).
Proof.
  intros Hi. replace n with (i + S (n - S i))%nat at 1 by lia.
  rewrite seq_app, flat_map_app. simpl. reflexivity.
Qed.

(** The events of the first [n] devices of the user whose identifier is
    entropy block [ue]. *)
Definition user_events (ue rp cp : nat) (n : nat) : list (list value) :=
  flat_map (fun d => device_events ue (11 * d + 1 + ue) (62 * d + rp)
                                   (10 * d + cp) 10)
           (seq 0 n).

Lemma user_step rp ep cp rows rest :
  triple (Good rp ep cp rows)
         (x <- Uuid.uuid4 ;; user x)
         (fun _ => Good (124 + rp) (23 + ep) (20 + cp)
                        (rows ++ user_events ep rp cp 2))
         (Bad (rows ++ user_events ep rp cp 2 ++ rest)).
Proof.
  intros w [-> Hok].
  rewrite (bind_ok _ _ _ _ _ (uuid4_at _ _ _ _)). unfold user.
  rewrite gen_uuids_repeat.
  apply (for_in_rule Uuid.uuid4 (device (uuid_at ep))
           (fun i => Good (62 * i + rp) (11 * i + 1 + ep) (10 * i + cp)
                          (rows ++ user_events ep rp cp i))).
  - intros i Hi w [-> Hoki].
    pose proof (device_step ep (62 * i + rp) (11 * i + 1 + ep) (10 * i + cp)
                  (rows ++ user_events ep rp cp i)
                  (flat_map (fun d => device_events ep (11 * d + 1 + ep)
                                        (62 * d + rp) (10 * d + cp) 10)
                            (seq (S i) (2 - S i)) ++ rest)
                  _ (conj eq_refl Hoki)) as H.
    destruct (bind Uuid.uuid4 _ _) as [[[]|e] w'].
    + unfold user_events.
      rewrite seq_snoc, flat_map_app, flat_map_single, app_assoc.
      destruct H as [-> H]. split; [|exact H].
      f_equal; lia.
    + unfold user_events.
      rewrite (flat_map_seq_split _ i 2 Hi), <- !app_assoc.
      unfold user_events in H. rewrite <- app_assoc in H. exact H.
  - split; [|rewrite app_nil_r; exact Hok].
    unfold user_events. simpl. rewrite app_nil_r. reflexivity.
Qed.

(** The events of the first [n] users. *)
Definition all_events (n : nat) : list (list value) :=
  flat_map (fun u => user_events (23 * u) (124 * u) (20 * u) 2) (seq 0 n).

Definition header : list value := map VStr fields.

(** Everything a complete run writes. *)
Definition table : list (list value) := header :: all_events 4.

Lemma users_loop :
  triple (Good 0 0 0 [header])
         (for_in (gen_uuids 4) user)
         (fun _ => Good 496 92 80 table)
         (Bad table).
Proof.
  rewrite gen_uuids_repeat.
  apply (for_in_rule Uuid.uuid4 user
           (fun i => Good (124 * i) (23 * i) (20 * i)
                          ([header] ++ all_events i))).
  intros i Hi w [-> Hoki].
  pose proof (user_step (124 * i) (23 * i) (20 * i)
                ([header] ++ all_events i)
                (flat_map (fun u => user_events (23 * u) (124 * u) (20 * u) 2)
                          (seq (S i) (4 - S i)))
                _ (conj eq_refl Hoki)) as H.
  destruct (bind Uuid.uuid4 _ _) as [[[]|e] w'].
  - unfold all_events.
    rewrite seq_snoc, flat_map_app, flat_map_single, app_assoc.
    destruct H as [-> H]. split; [|exact H].
    f_equal; lia.
  - unfold table, all_events.
    rewrite (flat_map_seq_split _ i 4 Hi).
    unfold all_events in H. rewrite <- app_assoc in H. exact H.
Qed.

(** How a run ends: the file could not be opened; or every row was
    written and the file closed; or a write failed and the file was
    closed. *)
Inductive run_shape (r : outcome unit) (w : World) : Prop :=
| NotOpened :
    io_ok s 0 = false ->
    r = Raise OSError ->
    io_trace w = [EvOpen path false] ->
    csv_rows w = [] ->
    run_shape r w
| Completed :
    oks (List.length table) ->
    r = (if io_ok s 82 then Ok tt else Raise OSError) ->
    io_trace w =
      EvOpen path true :: map ok_write table ++ [EvClose (io_ok s 82)] ->
    csv_rows w = table ->
    rand_pos w = 496%nat /\ entropy_pos w = 92%nat /\
    clock_pos w = 80%nat /\ io_pos w = 83%nat ->
    run_shape r w
| WriteFailed (done : list (list value)) (row : list value)
              (rest : list (list value)) :
    table = done ++ row :: rest ->
    oks (List.length done) ->
    io_ok s (S (List.length done)) = false ->
    r = Raise OSError ->
    io_trace w =
      EvOpen path true :: map ok_write done ++
      [bad_write row; EvClose (io_ok s (S (S (List.length done))))] ->
    csv_rows w = done ->
    run_shape r w.

Lemma length_table : List.length table = 81%nat.
Proof. reflexivity. Qed.

Lemma close_written rp ep cp rows :
  File.close (written_at rp ep cp rows) =
  (if io_ok s (S (List.length rows)) then Ok tt else Raise OSError,
   mkWorld s rp ep cp (S (S (List.length rows)))
           (EvOpen path true :: map ok_write rows ++
            [EvClose (io_ok s (S (List.length rows)))]) rows).
Proof. reflexivity. Qed.

Lemma close_failed rp ep cp rows row :
  File.close (failed_at rp ep cp rows row) =
  (if io_ok s (S (S (List.length rows))) then Ok tt else Raise OSError,
   mkWorld s rp ep cp (S (S (S (List.length rows))))
           (EvOpen path true :: map ok_write rows ++
            [bad_write row; EvClose (io_ok s (S (S (List.length rows))))])
           rows).
Proof.
  unfold File.close, File.io_step, failed_at.
  cbn [env io_pos rand_pos entropy_pos clock_pos io_trace csv_rows].
  rewrite <- app_comm_cons, <- app_assoc. reflexivity.
Qed.

Lemma open_boot :
  File.open_w path (boot s) =
  if io_ok s 0 then (Ok tt, written_at 0 0 0 [])
  else (Raise OSError, mkWorld s 0 0 0 1 [EvOpen path false] []).
Proof.
  unfold File.open_w, File.io_step, boot, written_at.
  cbn [env io_pos rand_pos entropy_pos clock_pos io_trace csv_rows].
  destruct (io_ok s 0); reflexivity.
Qed.

Lemma run_spec : run_shape (fst (run s)) (snd (run s)).
Proof.
  destruct (run s) as [r w] eqn:Hrun. cbn [fst snd].
  unfold run, main, File.with_open in Hrun. rewrite open_boot in Hrun.
  destruct (io_ok s 0) eqn:Hopen.
  - unfold bind at 1 in Hrun. rewrite writerow_at in Hrun.
    change (S (List.length (@nil (list value)))) with 1%nat in Hrun.
    destruct (io_ok s 1) eqn:Hhead.
    + assert (Good 0 0 0 [header] (written_at 0 0 0 ([] ++ [map VStr fields])))
        as Hg.
      { split; [reflexivity|]. intros i Hi. change (i <= 1)%nat in Hi.
        destruct i as [|[|i]]; [assumption|assumption|lia]. }
      pose proof (users_loop _ Hg) as H.
      destruct (for_in (gen_uuids 4) user _) as [[[]|e] w'].
      * destruct H as [-> Hok].
        rewrite close_written, length_table in Hrun.
        injection Hrun as <- <-.
        apply Completed; [exact Hok | reflexivity .. | ].
        repeat split.
      * destruct H as
          (-> & rp & ep & cp & done & row & rest & -> & Ht & Hok & Hbad).
        rewrite close_failed in Hrun.
        apply (WriteFailed _ _ done row rest); try assumption;
          destruct (io_ok s (S (S (List.length done))));
          injection Hrun as <- <-; reflexivity.
    + rewrite close_failed in Hrun.
      apply (WriteFailed _ _ [] header (all_events 4));
        [ reflexivity
        | intros i Hi; change (i <= 0)%nat in Hi;
          replace i with 0%nat by lia; assumption
        | assumption
        | destruct (io_ok s (S (S (List.length (@nil (list value))))));
          injection Hrun as <- <-; reflexivity .. ].
  - injection Hrun as <- <-. apply NotOpened; try reflexivity. assumption.
Qed.

(** ** The rows by number

    Row [n] (from 0) belongs to user [n / 20] and device [n / 10]; the
    positions it reads in the streams follow from the fixed shape of the
    loops: a user takes 23 entropy blocks and 124 random outcomes, a
    device 11 and 62, an event 1 and 6. *)

Definition user_block (n : nat) : nat := (23 * (n / 20))%nat.
Definition device_block (n : nat) : nat := (11 * (n / 10) + n / 20 + 1)%nat.
Definition event_block (n : nat) : nat := (n + n / 10 + n / 20 + 2)%nat.
Definition geo_pos (n : nat) : nat := (62 * (n / 10))%nat.
Definition rand_at (n : nat) : nat := (62 * (n / 10) + 2 + 6 * (n mod 10))%nat.

Definition row_at (n : nat) : Event :=
  event_at (user_block n) (device_block n) (event_block n) (geo_pos n)
           (rand_at n) n.

Definition expected_events : list Event := map row_at (seq 0 80).

Lemma all_events_flat : all_events 4 = map cells expected_events.
Proof. reflexivity. Qed.

Lemma map_seq_prefix {A} (f : nat -> A) l1 l2 : forall a n,
  map f (seq a n) = l1 ++ l2 ->
  l1 = map f (seq a (List.length l1)) /\ (List.length l1 <= n)%nat.
Proof.
  induction l1 as [|x l1 IH]; intros a n H.
  - split; [reflexivity | apply Nat.le_0_l].
  - destruct n as [|n]; [discriminate|].
    cbn [seq map app] in H. injection H as Hx Hl.
    destruct (IH _ _ Hl) as [IH1 IH2].
    cbn [List.length seq map]. split; [|lia].
    now rewrite <- IH1, Hx.
Qed.

Lemma cons_split {A} (h : A) l done row rest :
  h :: l = done ++ row :: rest ->
  done = [] \/ exists d, done = h :: d /\ l = d ++ row :: rest.
Proof.
  intros H. destruct done as [|x d]; [now left|right].
  cbn [app] in H. injection H as -> ->. now exists d.
Qed.

Lemma table_flat : table = header :: map cells expected_events.
Proof. unfold table. now rewrite all_events_flat. Qed.

(** Whatever happens to the file, the rows written are the header and
    then the first events of [expected_events]; all 80 of them when no
    file operation fails. *)
Lemma rows_run :
  csv_rows (snd (run s)) = [] \/
  exists k, (k <= 80)%nat /\
    csv_rows (snd (run s)) = header :: map cells (map row_at (seq 0 k)).
Proof.
  destruct run_spec as [_ _ _ Hrows | _ _ _ Hrows _
                        | done row rest Ht _ _ _ _ Hrows];
    rewrite Hrows.
  - now left.
  - right. exists 80%nat. split; [lia|]. apply table_flat.
  - rewrite table_flat in Ht.
    apply cons_split in Ht. destruct Ht as [-> | (d & -> & Ht)];
      [now left|right].
    unfold expected_events in Ht. rewrite map_map in Ht.
    apply map_seq_prefix in Ht. destruct Ht as [Hd Hlen].
    exists (List.length d). split; [exact Hlen|].
    rewrite map_map. now rewrite <- Hd.
Qed.

Lemma data_rows_run :
  exists k, (k <= 80)%nat /\
    data_rows (snd (run s)) = map cells (map row_at (seq 0 k)).
Proof.
  unfold data_rows.
  destruct rows_run as [-> | (k & Hk & ->)].
  - exists 0%nat. split; [lia | reflexivity].
  - exists k. split; [exact Hk | reflexivity].
Qed.

Lemma run_complete :
  oks 82 ->
  fst (run s) = Ok tt /\
  csv_rows (snd (run s)) = header :: map cells expected_events /\
  io_trace (snd (run s)) =
    EvOpen path true :: map ok_write table ++ [EvClose true] /\
  rand_pos (snd (run s)) = 496%nat /\ entropy_pos (snd (run s)) = 92%nat /\
  clock_pos (snd (run s)) = 80%nat /\ io_pos (snd (run s)) = 83%nat.
Proof.
  intros Hok.
  destruct run_spec as [Hopen _ _ _ | _ Hr Htr Hrows Hpos
                        | done row rest Ht _ Hbad _ _ _].
  - rewrite Hok in Hopen by lia. discriminate.
  - rewrite Hok in Hr, Htr by lia. rewrite <- table_flat. tauto.
  - apply (f_equal (@List.length _)) in Ht.
    rewrite length_table, length_app in Ht. cbn [List.length] in Ht.
    rewrite Hok in Hbad by lia. discriminate.
Qed.

End ClosedForm.

Arguments run_shape s r w : clear implicits.

(** * Values of the generators *)

Section Numbers.

Lemma round_half_even_bounds n d m :
  0 < d -> 0 <= n <= m * d ->
  0 <= Float.round_half_even n d <= m.
Proof.
  intros Hd [Hn Hm]. unfold Float.round_half_even.
  pose proof (Z.div_mod n d ltac:(lia)) as Hdiv.
  pose proof (Z.mod_pos_bound n d Hd) as Hr.
  pose proof (Z.div_pos n d Hn Hd) as Hq.
  destruct (2 * (n mod d) <? d) eqn:E1;
    [|destruct (d <? 2 * (n mod d)) eqn:E2; [|destruct (Z.even (n / d))]];
    try apply Z.ltb_lt in E1; try apply Z.ltb_ge in E1;
    try apply Z.ltb_lt in E2; try apply Z.ltb_ge in E2; nia.
Qed.

Lemma mul_120_bounds k :
  0 <= k < 2 ^ 53 -> 0 <= Float.mul k 120 <= 120 * 2 ^ 53.
Proof.
  intros Hk. unfold Float.mul.
  set (p := k * 120). assert (0 <= p < 2 ^ 60) as Hp by (subst p; lia).
  assert (p <= 120 * 2 ^ 53) as Hp' by (subst p; lia).
  destruct (Z.log2 p + 1 - 53 <=? 0) eqn:E; [lia|].
  apply Z.leb_gt in E.
  assert (Z.log2 p < 60) as Hlog.
  { destruct (Z.eq_dec p 0) as [->|]; [reflexivity|].
    apply Z.log2_lt_pow2; lia. }
  set (e := Z.log2 p + 1 - 53) in *.
  assert (2 ^ (53 - e) * 2 ^ e = 2 ^ 53) as Hpow
      by (rewrite <- Z.pow_add_r by lia; f_equal; lia).
  assert (0 < 2 ^ e) as He by (apply Z.pow_pos_nonneg; lia).
  assert (0 < 2 ^ (53 - e)) as He' by (apply Z.pow_pos_nonneg; lia).
  pose proof (round_half_even_bounds p (2 ^ e) (120 * 2 ^ (53 - e)) He
                ltac:(nia)) as H.
  nia.
Qed.

Lemma round2_mul_120_bounds k :
  0 <= k < 2 ^ 53 -> 0 <= Float.round2 (Float.mul k 120) <= 12000.
Proof.
  intros Hk. pose proof (mul_120_bounds k Hk) as H.
  unfold Float.round2. apply round_half_even_bounds; lia.
Qed.

(** Rounding moves a quotient by half a unit at most. *)
Lemma round_half_even_error n d :
  0 < d -> 2 * Z.abs (Float.round_half_even n d * d - n) <= d.
Proof.
  intros Hd. unfold Float.round_half_even.
  pose proof (Z.div_mod n d ltac:(lia)) as Hdiv.
  pose proof (Z.mod_pos_bound n d Hd) as Hr.
  destruct (2 * (n mod d) <? d) eqn:E1;
    [|destruct (d <? 2 * (n mod d)) eqn:E2; [|destruct (Z.even (n / d))]];
    try apply Z.ltb_lt in E1; try apply Z.ltb_ge in E1;
    try apply Z.ltb_lt in E2; try apply Z.ltb_ge in E2; nia.
Qed.

(** The product by 120 is off the exact one by 64 units of 2^-53 at
    most. *)
Lemma mul_120_error k :
  0 <= k < 2 ^ 53 -> Z.abs (Float.mul k 120 - 120 * k) <= 64.
Proof.
  intros Hk. unfold Float.mul.
  set (p := k * 120). assert (0 <= p < 2 ^ 60) as Hp by (subst p; lia).
  destruct (Z.log2 p + 1 - 53 <=? 0) eqn:E; [subst p; lia|].
  apply Z.leb_gt in E.
  assert (Z.log2 p < 60) as Hlog.
  { destruct (Z.eq_dec p 0) as [->|]; [reflexivity|].
    apply Z.log2_lt_pow2; lia. }
  set (e := Z.log2 p + 1 - 53) in *.
  assert (0 < 2 ^ e) as He by (apply Z.pow_pos_nonneg; lia).
  assert (2 ^ e <= 2 ^ 7) as He7 by (apply Z.pow_le_mono_r; lia).
  pose proof (round_half_even_error p (2 ^ e) He) as H.
  change (2 ^ 7) with 128 in He7. subst p. lia.
Qed.

(** The hundredths computed for a temperature are within half a
    hundredth, and the error of the product, of 120 times the draw. *)
Lemma round2_mul_120_error k :
  0 <= k < 2 ^ 53 ->
  Z.abs (Float.round2 (Float.mul k 120) * 2 ^ 53 - 100 * (120 * k))
    <= 2 ^ 52 + 6400.
Proof.
  intros Hk. pose proof (mul_120_error k Hk) as Hm.
  pose proof (round_half_even_error (Float.mul k 120 * 100) (2 ^ 53)
                ltac:(lia)) as Hr.
  unfold Float.round2.
  change (2 ^ 53) with 9007199254740992 in *.
  change (2 ^ 52) with 4503599627370496. lia.
Qed.

(** Truncation never moves a reading forward by a whole second. *)
Lemma to_int_minus_lt (x : Q) (r : Z) :
  1 <= r -> (inject_Z (Float.to_int x - r) < x)%Q.
Proof.
  intros Hr. destruct x as [n d]. unfold Float.to_int, Qlt. cbn.
  pose proof (Z.quot_rem' n (Zpos d)) as Hq.
  pose proof (Z.rem_bound_abs n (Zpos d) ltac:(lia)) as Hrem.
  nia.
Qed.

Lemma mod_index (d n : Z) :
  0 < n -> (Z.to_nat (d mod n) < Z.to_nat n)%nat.
Proof. intros Hn. pose proof (Z.mod_pos_bound d n Hn). lia. Qed.

End Numbers.

(** * Text of the rows *)

(** A string the writer leaves unquoted. *)
Definition plain (s : string) : Prop := Csv.needs_quote s = false.

(** Number of line feeds in a text. *)
Fixpoint line_feeds (s : string) : nat :=
  match s with
  | EmptyString => 0%nat
  | String c s' => ((if Ascii.eqb c Csv.LF then 1 else 0) + line_feeds s')%nat
  end.

Definition comma : string := String Csv.delimiter EmptyString.

(** The record of an event, written out field by field. *)
Definition event_line (ev : Event) : string :=
  (Text.str_uuid (userId ev) ++ comma ++ Text.str_uuid (deviceId ev) ++ comma ++
   Text.str_uuid (eventId ev) ++ comma ++ geoLocation ev ++ comma ++
   Text.str_int (epochS ev) ++ comma ++ Text.str_int (expiry ev) ++ comma ++
   Text.repr_float (tempC ev) ++ comma ++ Text.str_int (humidityPct ev) ++ comma ++
   Text.str_int (pressurePa ev) ++ Csv.lineterminator)%string.

Definition header_line : string :=
  ("userId,deviceId,eventId,geoLocation,epochS,expiry,tempC,humidityPct,pressurePa"
   ++ Csv.lineterminator)%string.

Definition as_event (row : list value) : option Event :=
  match row with
  | [VUuid u; VUuid d; VUuid e; VStr g; VInt t; VInt x; VFloat c; VInt h;
     VInt p] => Some (mkEvent u d e g t x c h p)
  | _ => None
  end.

Section TextFacts.

Lemma as_event_cells ev : as_event (cells ev) = Some ev.
Proof. destruct ev; reflexivity. Qed.

Lemma as_event_inv row ev : as_event row = Some ev -> row = cells ev.
Proof.
  unfold as_event. intros H.
  repeat (match type of H with
          | match ?x with _ => _ end = _ => destruct x; try discriminate
          end).
  injection H as <-. reflexivity.
Qed.

Lemma plain_app a b : plain a -> plain b -> plain (a ++ b).
Proof.
  unfold plain. induction a as [|c a IH]; intros Ha Hb; cbn in *; [exact Hb|].
  apply orb_false_iff in Ha. destruct Ha as [Hc Ha].
  rewrite Hc. cbn. now apply IH.
Qed.

Lemma plain_cons c s : Csv.special c = false -> plain s -> plain (String c s).
Proof. unfold plain. cbn. now intros -> ->. Qed.

Lemma plain_substring s : plain s -> forall n m, plain (substring n m s).
Proof.
  unfold plain. induction s as [|c s IH]; intros Hs n m.
  - destruct n, m; reflexivity.
  - cbn in Hs. apply orb_false_iff in Hs. destruct Hs as [Hc Hs].
    destruct n as [|n]; cbn.
    + destruct m as [|m]; [reflexivity|]. cbn. rewrite Hc. cbn. apply IH, Hs.
    + apply IH, Hs.
Qed.

Lemma digit_plain d : 0 <= d < 10 -> Csv.special (Text.digit d) = false.
Proof.
  intros Hd. unfold Text.digit.
  assert (Z.to_nat d < 10)%nat as Hn by lia.
  generalize dependent (Z.to_nat d). intros n Hn.
  do 10 (destruct n as [|n]; [reflexivity|]). lia.
Qed.

Lemma hex_digit_plain d : 0 <= d < 16 -> Csv.special (Text.hex_digit d) = false.
Proof.
  intros Hd.
  replace d with (Z.of_nat (Z.to_nat d)) by lia.
  assert (Z.to_nat d < 16)%nat as Hn by lia.
  generalize dependent (Z.to_nat d). intros n Hn.
  do 16 (destruct n as [|n]; [reflexivity|]). lia.
Qed.

Lemma hex_fixed_plain n z : plain (Text.hex_fixed n z).
Proof.
  induction n as [|n IH]; [reflexivity|].
  cbn [Text.hex_fixed]. apply plain_cons; [|exact IH].
  apply hex_digit_plain, Z.mod_pos_bound. lia.
Qed.

Lemma str_uuid_plain u : plain (Text.str_uuid u).
Proof.
  unfold Text.str_uuid.
  repeat (apply plain_app;
          [first [apply plain_substring, hex_fixed_plain | reflexivity]|]).
  apply plain_substring, hex_fixed_plain.
Qed.

Lemma string_of_uint_plain d : plain (NilEmpty.string_of_uint d).
Proof. induction d; cbn; try reflexivity; apply plain_cons; auto. Qed.

Lemma str_int_plain z : plain (Text.str_int z).
Proof.
  unfold Text.str_int, NilZero.string_of_int, NilZero.string_of_uint.
  destruct (Z.to_int z) as [d|d].
  - destruct d; try reflexivity; apply string_of_uint_plain.
  - apply plain_cons; [reflexivity|].
    destruct d; try reflexivity; apply string_of_uint_plain.
Qed.

Lemma repr_float_plain c : plain (Text.repr_float c).
Proof.
  unfold Text.repr_float.
  pose proof (Z.mod_pos_bound (Z.abs c) 100 eq_refl) as Hf.
  set (f := Z.abs c mod 100) in *.
  assert (0 <= f / 10 < 10) as Hhi
      by (split; [apply Z.div_pos; lia | apply Z.div_lt_upper_bound; lia]).
  pose proof (Z.mod_pos_bound f 10 eq_refl) as Hlo.
  apply plain_app; [destruct (c <? 0); reflexivity|].
  apply plain_app; [apply str_int_plain|].
  apply plain_app; [reflexivity|].
  destruct (f mod 10 =? 0);
    repeat (apply plain_cons; [apply digit_plain; assumption|]); reflexivity.
Qed.

Lemma geo_at_plain s rp : plain (geo_at s rp).
Proof.
  unfold geo_at, state_at.
  pose proof (Z.mod_pos_bound (rand_src s rp) 3 eq_refl) as Hm.
  set (m := rand_src s rp mod 3) in *.
  assert (m = 0 \/ m = 1 \/ m = 2) as [-> | [-> | ->]] by lia;
    cbn [Z.to_nat nth map fst locations cities_of find String.eqb Ascii.eqb
         Bool.eqb snd List.length hd];
    match goal with
    | |- context [rand_src s (S rp) mod ?n] =>
        let k := eval vm_compute in n in
        change n with k;
        pose proof (Z.mod_pos_bound (rand_src s (S rp)) k eq_refl) as Hc;
        set (c := rand_src s (S rp) mod k) in *
    end.
  - assert (c = 0 \/ c = 1) as [-> | ->] by lia; reflexivity.
  - assert (c = 0 \/ c = 1 \/ c = 2) as [-> | [-> | ->]] by lia; reflexivity.
  - assert (c = 0 \/ c = 1) as [-> | ->] by lia; reflexivity.
Qed.

Lemma field_plain f : plain f -> Csv.field f = f.
Proof. unfold plain, Csv.field. now intros ->. Qed.

Lemma append_assoc (a b c : string) : ((a ++ b) ++ c = a ++ (b ++ c))%string.
Proof. induction a as [|x a IH]; cbn; [reflexivity | now rewrite IH]. Qed.

Lemma line_header : Csv.line (map Text.str (map VStr fields)) = header_line.
Proof. reflexivity. Qed.

Lemma line_cells ev :
  plain (geoLocation ev) ->
  Csv.line (map Text.str (cells ev)) = event_line ev.
Proof.
  intros Hg. unfold Csv.line, cells, event_line, comma.
  cbn [map Text.str String.concat].
  rewrite !field_plain;
    auto using str_uuid_plain, str_int_plain, repr_float_plain.
  now rewrite !append_assoc.
Qed.

Lemma line_feeds_app a b :
  line_feeds (a ++ b) = (line_feeds a + line_feeds b)%nat.
Proof.
  induction a as [|c a IH]; [reflexivity|].
  cbn [String.append line_feeds]. rewrite IH. lia.
Qed.

Lemma line_feeds_plain f : plain f -> line_feeds f = 0%nat.
Proof.
  unfold plain. induction f as [|c f IH]; [reflexivity|].
  cbn [Csv.needs_quote line_feeds]. intros H.
  apply orb_false_iff in H. destruct H as [Hc Hf].
  unfold Csv.special in Hc.
  apply orb_false_iff in Hc. destruct Hc as [_ ->].
  now rewrite IH.
Qed.

Lemma line_feeds_event_line ev :
  plain (geoLocation ev) -> line_feeds (event_line ev) = 1%nat.
Proof.
  intros Hg. unfold event_line.
  rewrite !line_feeds_app.
  change (line_feeds comma) with 0%nat.
  change (line_feeds Csv.lineterminator) with 1%nat.
  rewrite !line_feeds_plain
    by auto using str_uuid_plain, str_int_plain, repr_float_plain.
  reflexivity.
Qed.

Lemma line_feeds_concat ls :
  Forall (fun l => line_feeds l = 1%nat) ls ->
  line_feeds (String.concat "" ls) = List.length ls.
Proof.
  induction 1 as [|l ls Hl _ IH]; [reflexivity|].
  cbn [String.concat List.length].
  destruct ls as [|l' ls'].
  - exact Hl.
  - rewrite !line_feeds_app, Hl, IH. reflexivity.
Qed.

Lemma written_app a b : written (a ++ b) = written a ++ written b.
Proof. apply flat_map_app. Qed.

Lemma written_ok_writes rows :
  written (map ok_write rows) =
  map (fun r => Csv.line (map Text.str r)) rows.
Proof.
  induction rows as [|r rows IH]; [reflexivity|].
  cbn [map written flat_map ok_write app]. f_equal. exact IH.
Qed.

(** The file holds the records of the rows the writer wrote, and nothing
    else. *)
Lemma written_run s :
  written (io_trace (snd (run s))) =
  map (fun r => Csv.line (map Text.str r)) (csv_rows (snd (run s))).
Proof.
  destruct (run_spec s) as [_ _ -> -> | _ _ -> -> _
                            | done row rest _ _ _ _ -> ->].
  - reflexivity.
  - change (EvOpen path true :: ?l) with ([EvOpen path true] ++ l).
    rewrite !written_app, written_ok_writes. cbn [written flat_map app].
    now rewrite app_nil_r.
  - change (EvOpen path true :: ?l) with ([EvOpen path true] ++ l).
    rewrite !written_app, written_ok_writes.
    cbn [written flat_map app bad_write]. now rewrite app_nil_r.
Qed.

Lemma row_at_plain s n : plain (geoLocation (row_at s n)).
Proof. apply geo_at_plain. Qed.

End TextFacts.

(** * The rows of a run *)

Section Rows.

Variable s : Sources.

(** Row [n] of the data, when it was written, is the event [row_at s n]. *)
Lemma data_nth n row :
  nth_error (data_rows (snd (run s))) n = Some row ->
  (n < 80)%nat /\ row = cells (row_at s n).
Proof.
  destruct (data_rows_run s) as (k & Hk & ->).
  rewrite map_map, nth_error_map, nth_error_seq.
  destruct (Nat.ltb_spec n k); [|discriminate].
  cbn. intros [= <-]. split; [lia | reflexivity].
Qed.

Lemma data_in row :
  In row (data_rows (snd (run s))) ->
  exists n, (n < 80)%nat /\ row = cells (row_at s n).
Proof.
  intros H. apply In_nth_error in H. destruct H as [n H].
  exists n. now apply data_nth.
Qed.

Lemma forallb_seq (f : nat -> bool) k n :
  forallb f (seq 0 k) = true -> (n < k)%nat -> f n = true.
Proof.
  intros H Hn. rewrite forallb_forall in H. apply H, in_seq. lia.
Qed.

Lemma expiry_at_cases rp cp :
  expiry_at s rp cp = 0 \/
  expiry_at s rp cp = epochS_at s rp cp + ttl_at s rp.
Proof.
  unfold expiry_at.
  pose proof (Z.mod_pos_bound (rand_src s (2 + rp)) 4 eq_refl) as Hm.
  set (m := rand_src s (2 + rp) mod 4) in *.
  assert (m = 0 \/ m = 1 \/ m = 2 \/ m = 3) as [-> | [-> | [-> | ->]]] by lia;
    cbn [Z.to_nat Pos.to_nat Pos.iter_op Nat.add nth]; auto.
Qed.

Lemma ttl_at_range rp : 60 <= ttl_at s rp <= 600.
Proof.
  unfold ttl_at.
  pose proof (Z.mod_pos_bound (rand_src s (1 + rp)) 541 eq_refl). lia.
Qed.

Lemma offset_at_range rp : 100 <= offset_at s rp <= 10000.
Proof.
  unfold offset_at.
  pose proof (Z.mod_pos_bound (rand_src s rp) 9901 eq_refl). lia.
Qed.

End Rows.

(** ** Expiry *)

(** C3. In every data row, an expiry other than 0 is later than the row's
    epochS. *)
Theorem expiry_after_epochS (s : Sources) (row : list value) :
  In row (data_rows (snd (run s))) ->
  exists ev, as_event row = Some ev /\
             (expiry ev <> 0 -> expiry ev > epochS ev).
Proof.
  intros H. apply data_in in H. destruct H as (n & _ & ->).
  exists (row_at s n). split; [apply as_event_cells|].
  cbn [row_at event_at expiry epochS].
  pose proof (ttl_at_range s (rand_at n)).
  destruct (expiry_at_cases s (rand_at n) n) as [-> | ->]; lia.
Qed.

Lemma expiry_after_epochS_witness :
  exists ev, as_event (nth 1 (data_rows (snd (run demo))) []) = Some ev /\
             (expiry ev <> 0 -> expiry ev > epochS ev).
Proof.
  apply (expiry_after_epochS demo).
  vm_compute. right. left. reflexivity.
Defined.

(** A state whose next two draws are [r] and [i]. *)
Definition draws2 (r i : Z) : World :=
  boot (mkSources (fun n => match n with O => r | _ => i end)
                  (fun _ => 0) (fun _ => 0%Q) (fun _ => true) 0%nat).

(** The results of [random_expiry t] over the 541 x 4 pairs of outcomes of
    its two draws, [randbelow(541)] and [randbelow(4)]: equally weighted
    when the generator is uniform. *)
Definition expiry_space (t : Z) : list (outcome Z) :=
  flat_map (fun r => map (fun i => fst (random_expiry t
                                          (draws2 (Z.of_nat r) (Z.of_nat i))))
                         (seq 0 4))
           (seq 0 541).

Definition returns (x : Z) (o : outcome Z) : bool :=
  match o with
  | Ok y => y =? x
  | Raise _ => false
  end.

Section ExpirySpace.

Variable t : Z.

Definition expiry_slots (r : nat) : list (outcome Z) :=
  [Ok 0; Ok 0; Ok 0; Ok (t + (60 + Z.of_nat r))].

Lemma random_expiry_residues (w : World) :
  fst (random_expiry t w) =
  fst (random_expiry t (draws2 (rand_src (env w) (rand_pos w) mod 541)
                               (rand_src (env w) (S (rand_pos w)) mod 4))).
Proof.
  cbv [random_expiry Random.randint Random.randbelow Random.choice
       Random.draw bind ret fst draws2 boot env rand_pos rand_src].
  cbn [List.length Z.of_nat Pos.of_succ_nat Pos.succ].
  change (600 - 60 + 1) with 541.
  now rewrite !Z.mod_mod by lia.
Qed.

Lemma expiry_slots_eq r :
  (r < 541)%nat ->
  map (fun i => fst (random_expiry t (draws2 (Z.of_nat r) (Z.of_nat i))))
      (seq 0 4) = expiry_slots r.
Proof.
  intros Hr. unfold expiry_slots.
  cbv [random_expiry Random.randint Random.randbelow Random.choice
       Random.draw bind ret fst draws2 boot env rand_pos rand_src map seq].
  cbn [List.length Z.of_nat Pos.of_succ_nat Pos.succ].
  change (600 - 60 + 1) with 541.
  rewrite (Z.mod_small (Z.of_nat r) 541) by lia.
  reflexivity.
Qed.

Lemma flat_map_ext_in {A B} (f g : A -> list B) l :
  (forall a, In a l -> f a = g a) -> flat_map f l = flat_map g l.
Proof.
  induction l as [|a l IH]; intros H; [reflexivity|].
  cbn [flat_map]. rewrite (H a) by now left.
  rewrite IH; [reflexivity|]. intros b Hb. apply H. now right.
Qed.

Lemma expiry_space_slots : expiry_space t = flat_map expiry_slots (seq 0 541).
Proof.
  unfold expiry_space. apply flat_map_ext_in. intros r Hr.
  apply in_seq in Hr. apply expiry_slots_eq. lia.
Qed.

Lemma count_in_slots x n :
  List.length (filter (returns x) (flat_map expiry_slots (seq 0 n))) =
  Nat.add (if x =? 0 then Nat.mul 3 n else 0%nat)
          (if (0 <=? x - t - 60) && (x - t - 60 <? Z.of_nat n)
           then 1%nat else 0%nat).
Proof.
  induction n as [|n IH].
  - cbn [seq flat_map filter List.length Z.of_nat].
    destruct (x =? 0); destruct (0 <=? x - t - 60) eqn:E; cbn;
      try reflexivity;
      destruct (x - t - 60 <? 0) eqn:E'; try reflexivity;
      apply Z.leb_le in E; apply Z.ltb_lt in E'; lia.
  - rewrite seq_S, flat_map_app, filter_app, length_app, IH.
    cbn [Nat.add flat_map app expiry_slots filter returns].
    rewrite (Z.eqb_sym 0 x).
    assert ((t + (60 + Z.of_nat n) =? x) = (x - t - 60 =? Z.of_nat n)) as ->.
    { destruct (Z.eqb_spec (t + (60 + Z.of_nat n)) x);
        destruct (Z.eqb_spec (x - t - 60) (Z.of_nat n)); try reflexivity; lia. }
    destruct (x =? 0);
      destruct (Z.leb_spec 0 (x - t - 60));
      destruct (Z.ltb_spec (x - t - 60) (Z.of_nat n));
      destruct (Z.ltb_spec (x - t - 60) (Z.of_nat (S n)));
      destruct (Z.eqb_spec (x - t - 60) (Z.of_nat n));
      cbn [andb List.length]; lia.
Qed.

End ExpirySpace.

(** C4, as amended.  [random_expiry t] makes two draws, an offset
    [randint(60, 600)] and a slot [randbelow(4)] of the tuple
    [(0, 0, 0, t + offset)], and its result depends on them only.  Over
    the 4 x 541 pairs of outcomes, equally weighted, each value [t + o]
    other than 0, with [o] from 60 to 600, comes from exactly one pair, and
    0 comes from 3 x 541 pairs, three quarters, when [t] is not between
    -600 and -60; from one pair more when it is (then [t + offset] is
    itself 0 for the offset [-t]). *)
Theorem random_expiry_distribution (t : Z) :
  (forall w,
     fst (random_expiry t w) =
     fst (random_expiry t
            (draws2 (rand_src (env w) (rand_pos w) mod 541)
                    (rand_src (env w) (S (rand_pos w)) mod 4))) /\
     rand_pos (snd (random_expiry t w)) = (2 + rand_pos w)%nat) /\
  List.length (expiry_space t) = (4 * 541)%nat /\
  List.length (filter (returns 0) (expiry_space t)) =
    Nat.add (Nat.mul 3 541)
            (if (-600 <=? t) && (t <=? -60) then 1%nat else 0%nat) /\
  (forall o, 60 <= o <= 600 -> t + o <> 0 ->
     List.length (filter (returns (t + o)) (expiry_space t)) = 1%nat) /\
  (forall x, In x (expiry_space t) ->
     x = Ok 0 \/ exists o, 60 <= o <= 600 /\ x = Ok (t + o)).
Proof.
  split; [|split; [|split; [|split]]].
  - intros w. split; [apply random_expiry_residues | reflexivity].
  - rewrite expiry_space_slots.
    assert (forall n, List.length (flat_map (expiry_slots t) (seq 0 n))
                      = (4 * n)%nat) as H.
    { induction n as [|n IH]; [reflexivity|].
      rewrite seq_S, flat_map_app, length_app, IH. cbn. lia. }
    apply H.
  - rewrite expiry_space_slots, count_in_slots.
    cbn [Z.eqb]. f_equal.
    destruct (Z.leb_spec 0 (0 - t - 60));
      destruct (Z.ltb_spec (0 - t - 60) (Z.of_nat 541));
      destruct (Z.leb_spec (-600) t); destruct (Z.leb_spec t (-60));
      cbn [andb]; try reflexivity; lia.
  - intros o Ho Hne. rewrite expiry_space_slots, count_in_slots.
    destruct (Z.eqb_spec (t + o) 0); [contradiction|].
    destruct (Z.leb_spec 0 (t + o - t - 60));
      destruct (Z.ltb_spec (t + o - t - 60) (Z.of_nat 541));
      cbn [andb]; try reflexivity; lia.
  - intros x Hx. rewrite expiry_space_slots in Hx.
    apply in_flat_map in Hx. destruct Hx as (r & Hr & Hx).
    apply in_seq in Hr. cbn in Hx.
    destruct Hx as [<- | [<- | [<- | [<- | []]]]]; auto.
    right. exists (60 + Z.of_nat r). split; [lia | reflexivity].
Qed.

(** C4, as stated, fails at [t = -60]: when the offset drawn is 60 the
    fourth slot is 0 as well, all four slots return the sentinel, and 0
    comes from 1624 of the 2164 pairs, not from three quarters of them. *)
Lemma four_sentinels_at_minus_60 :
  map (fun i => fst (random_expiry (-60) (draws2 0 i))) [0; 1; 2; 3] =
    [Ok 0; Ok 0; Ok 0; Ok 0] /\
  List.length (filter (returns 0) (expiry_space (-60))) = 1624%nat /\
  List.length (expiry_space (-60)) = 2164%nat.
Proof. repeat split; vm_compute; reflexivity. Qed.

(** ** Measurements *)

(** C5, as amended.  In every data row humidityPct is an integer from 0
    to 100, pressurePa an integer from 100000 to 105000, and tempC a float
    that is a number of hundredths from 0.00 to 120.00, within half a
    hundredth (and the rounding of one product) of 120 times its draw in
    [0, 1).  It is printed as Python prints a float, with the shortest
    fraction: one digit when the hundredths digit is 0, two otherwise;
    never with a padding zero.  Each of the three values comes from a draw
    of its own, and no draw serves two rows. *)
Theorem measurements_in_range (s : Sources) (n : nat) (row : list value) :
  nth_error (data_rows (snd (run s))) n = Some row ->
  exists ev, as_event row = Some ev /\
    0 <= humidityPct ev <= 100 /\
    100000 <= pressurePa ev <= 105000 /\
    0 <= tempC ev <= 12000 /\
    nth_error row 6 = Some (VFloat (tempC ev)) /\
    Text.str (VFloat (tempC ev)) =
      (Text.str_int (tempC ev / 100) ++ "." ++
       (if (tempC ev mod 10 =? 0)%Z
        then String (Text.digit (tempC ev mod 100 / 10)) EmptyString
        else String (Text.digit (tempC ev mod 100 / 10))
               (String (Text.digit (tempC ev mod 10)) EmptyString)))%string /\
    tempC ev =
      Float.round2 (Float.mul (rand_src s (3 + rand_at n) mod 2 ^ 53) 120) /\
    Z.abs (tempC ev * 2 ^ 53
           - 100 * (120 * (rand_src s (3 + rand_at n) mod 2 ^ 53)))
      <= 2 ^ 52 + 6400 /\
    humidityPct ev = 0 + rand_src s (4 + rand_at n) mod 101 /\
    pressurePa ev = 100000 + rand_src s (5 + rand_at n) mod 5001 /\
    (forall m, (m < 80)%nat -> m <> n ->
       (rand_at m + 6 <= rand_at n \/ rand_at n + 6 <= rand_at m)%nat).
Proof.
  intros H. apply data_nth in H. destruct H as (Hn & ->).
  exists (row_at s n). split; [apply as_event_cells|].
  cbn [row_at event_at humidityPct pressurePa tempC].
  unfold humidityPct_at, pressurePa_at, tempC_at.
  pose proof (Z.mod_pos_bound (rand_src s (4 + rand_at n)) 101 eq_refl).
  pose proof (Z.mod_pos_bound (rand_src s (5 + rand_at n)) 5001 eq_refl).
  pose proof (Z.mod_pos_bound (rand_src s (3 + rand_at n)) (2 ^ 53) eq_refl)
    as Hk.
  pose proof (round2_mul_120_bounds _ Hk) as Ht.
  pose proof (round2_mul_120_error _ Hk) as Herr.
  set (c := Float.round2 _) in *.
  split; [lia|]. split; [lia|]. split; [lia|].
  split; [reflexivity|].
  split.
  { cbn [Text.str]. unfold Text.repr_float.
    replace (c <? 0) with false by (symmetry; apply Z.ltb_ge; lia).
    rewrite Z.abs_eq by lia.
    replace (c mod 100 mod 10) with (c mod 10)
      by (symmetry; apply Z.mod_mod_divide; now exists 10).
    reflexivity. }
  split; [reflexivity|]. split; [exact Herr|].
  split; [reflexivity|]. split; [reflexivity|].
  intros m Hm Hne.
  assert (forallb (fun a => forallb (fun b =>
            (a =? b)%nat || (rand_at a + 6 <=? rand_at b)%nat
            || (rand_at b + 6 <=? rand_at a)%nat) (seq 0 80)) (seq 0 80)
          = true) as Hall by (vm_compute; reflexivity).
  pose proof (forallb_seq _ _ _ (forallb_seq _ _ _ Hall Hm) Hn) as Hmn.
  cbv beta in Hmn.
  apply orb_true_iff in Hmn. destruct Hmn as [Hmn | Hmn].
  - apply orb_true_iff in Hmn. destruct Hmn as [Hmn | Hmn].
    + apply Nat.eqb_eq in Hmn. contradiction.
    + apply Nat.leb_le in Hmn. now left.
  - apply Nat.leb_le in Hmn. now right.
Qed.

Lemma measurements_in_range_witness :
  exists ev, as_event (cells (row_at demo 5)) = Some ev /\
    0 <= humidityPct ev <= 100 /\
    100000 <= pressurePa ev <= 105000 /\
    0 <= tempC ev <= 12000 /\
    nth_error (cells (row_at demo 5)) 6 = Some (VFloat (tempC ev)) /\
    Text.str (VFloat (tempC ev)) =
      (Text.str_int (tempC ev / 100) ++ "." ++
       (if (tempC ev mod 10 =? 0)%Z
        then String (Text.digit (tempC ev mod 100 / 10)) EmptyString
        else String (Text.digit (tempC ev mod 100 / 10))
               (String (Text.digit (tempC ev mod 10)) EmptyString)))%string /\
    tempC ev =
      Float.round2 (Float.mul (rand_src demo (3 + rand_at 5) mod 2 ^ 53) 120) /\
    Z.abs (tempC ev * 2 ^ 53
           - 100 * (120 * (rand_src demo (3 + rand_at 5) mod 2 ^ 53)))
      <= 2 ^ 52 + 6400 /\
    humidityPct ev = 0 + rand_src demo (4 + rand_at 5) mod 101 /\
    pressurePa ev = 100000 + rand_src demo (5 + rand_at 5) mod 5001 /\
    (forall m, (m < 80)%nat -> m <> 5%nat ->
       (rand_at m + 6 <= rand_at 5 \/ rand_at 5 + 6 <= rand_at m)%nat).
Proof.
  apply (measurements_in_range demo 5). vm_compute. reflexivity.
Defined.

(** C5, as stated, fails on "always exactly 2 decimal places": the first
    data row of the sample environment carries 71.40 degrees, and its
    tempC field is the text 71.4; the sixth reads 19.8. *)
Lemma tempC_with_one_decimal :
  fst (run demo) = Ok tt /\
  (exists row, nth_error (data_rows (snd (run demo))) 0 = Some row /\
     nth_error row 6 = Some (VFloat 7140) /\
     nth_error (map Text.str row) 6 = Some "71.4") /\
  (exists row, nth_error (data_rows (snd (run demo))) 5 = Some row /\
     nth_error (map Text.str row) 6 = Some "19.8").
Proof.
  split; [vm_compute; reflexivity|].
  split; eexists; (split; [vm_compute; reflexivity|]);
    repeat split; vm_compute; reflexivity.
Qed.

(** ** Timestamps *)

(** C8. In every data row epochS is the clock reading taken for that row,
    cut to whole seconds, minus an offset drawn between 100 and 10000; it
    lies before the reading. *)
Theorem epochS_in_the_past (s : Sources) (n : nat) (row : list value) :
  nth_error (data_rows (snd (run s))) n = Some row ->
  exists ev off, as_event row = Some ev /\
    off = 100 + rand_src s (rand_at n) mod (10000 - 100 + 1) /\
    100 <= off <= 10000 /\
    epochS ev = Float.to_int (clock_src s n) - off /\
    epochS ev < Float.to_int (clock_src s n) /\
    (inject_Z (epochS ev) < clock_src s n)%Q.
Proof.
  intros H. apply data_nth in H. destruct H as (Hn & ->).
  exists (row_at s n), (offset_at s (rand_at n)).
  pose proof (offset_at_range s (rand_at n)) as Ho.
  split; [apply as_event_cells|].
  cbn [row_at event_at epochS]. unfold epochS_at.
  repeat split; try lia; try reflexivity.
  apply to_int_minus_lt. lia.
Qed.

Lemma epochS_in_the_past_witness :
  exists ev off, as_event (cells (row_at demo 7)) = Some ev /\
    off = 100 + rand_src demo (rand_at 7) mod (10000 - 100 + 1) /\
    100 <= off <= 10000 /\
    epochS ev = Float.to_int (clock_src demo 7) - off /\
    epochS ev < Float.to_int (clock_src demo 7) /\
    (inject_Z (epochS ev) < clock_src demo 7)%Q.
Proof.
  apply (epochS_in_the_past demo 7). vm_compute. reflexivity.
Defined.

(** * Identifiers *)

(** The 92 identifiers a complete run draws are pairwise distinct. *)
Definition fresh (s : Sources) : Prop := NoDup (map (uuid_at s) (seq 0 92)).

Section Injective.

Context {A B : Type} (decA : forall x y : A, {x = y} + {x <> y})
        (decB : forall x y : B, {x = y} + {x <> y}) (f : A -> B).

Definition inj_on (l : list A) : Prop :=
  forall a b, In a l -> In b l -> f a = f b -> a = b.

Lemma inj_on_tail x l : inj_on (x :: l) -> inj_on l.
Proof. intros H a b Ha Hb. apply H; now right. Qed.

Lemma in_map_inj x l : inj_on (x :: l) -> In (f x) (map f l) -> In x l.
Proof.
  intros H Hin. apply in_map_iff in Hin. destruct Hin as (y & Hy & Hin).
  assert (y = x) as <-; [|exact Hin].
  apply H; [now right | now left | exact Hy].
Qed.

Lemma nodup_map_inj l :
  inj_on l -> nodup decB (map f l) = map f (nodup decA l).
Proof.
  induction l as [|x l IH]; intros H; [reflexivity|].
  cbn [map nodup].
  destruct (in_dec decB (f x) (map f l)) as [Hin | Hin];
    destruct (in_dec decA x l) as [Hin' | Hin'].
  - apply IH. eapply inj_on_tail, H.
  - exfalso. apply Hin'. now apply in_map_inj.
  - exfalso. apply Hin. now apply in_map.
  - cbn [map]. f_equal. apply IH. eapply inj_on_tail, H.
Qed.

Lemma count_occ_map_inj l x :
  inj_on (x :: l) ->
  count_occ decB (map f l) (f x) = count_occ decA l x.
Proof.
  induction l as [|y l IH]; intros H; [reflexivity|].
  cbn [map count_occ].
  assert (inj_on (x :: l)) as H'.
  { intros a b Ha Hb. apply H; cbn in *; tauto. }
  destruct (decB (f y) (f x)) as [E | E]; destruct (decA y x) as [E' | E'].
  - now rewrite IH.
  - exfalso. apply E'. apply H; cbn; auto.
  - exfalso. apply E. now rewrite E'.
  - now apply IH.
Qed.

End Injective.

Section Identifiers.

Variable s : Sources.
Hypothesis Hfresh : fresh s.

Lemma uuid_at_inj i j :
  (i < 92)%nat -> (j < 92)%nat -> uuid_at s i = uuid_at s j -> i = j.
Proof.
  intros Hi Hj H. unfold fresh in Hfresh.
  rewrite (NoDup_nth _ (uuid_at s 0)) in Hfresh.
  rewrite length_map, length_seq in Hfresh.
  apply (Hfresh i j Hi Hj).
  rewrite !map_nth, !seq_nth by assumption. exact H.
Qed.

Lemma uuid_inj_on l :
  Forall (fun i => (i < 92)%nat) l -> inj_on (uuid_at s) l.
Proof.
  intros Hl a b Ha Hb. rewrite Forall_forall in Hl.
  apply uuid_at_inj; auto.
Qed.

End Identifiers.

Lemma blocks_below n :
  (n < 80)%nat ->
  (user_block n < 92 /\ device_block n < 92 /\ event_block n < 92)%nat.
Proof.
  intros Hn.
  assert (forallb (fun n => (user_block n <? 92)%nat &&
                            (device_block n <? 92)%nat &&
                            (event_block n <? 92)%nat) (seq 0 80) = true)
    as Hall by (vm_compute; reflexivity).
  pose proof (forallb_seq _ _ _ Hall Hn) as H. cbv beta in H.
  apply andb_true_iff in H. destruct H as [H H3].
  apply andb_true_iff in H. destruct H as [H1 H2].
  apply Nat.ltb_lt in H1, H2, H3. auto.
Qed.

Lemma Forall_map_seq (g : nat -> nat) (P : nat -> Prop) k :
  (forall n, (n < k)%nat -> P (g n)) -> Forall P (map g (seq 0 k)).
Proof.
  intros H. apply Forall_forall. intros x Hx.
  apply in_map_iff in Hx. destruct Hx as (n & <- & Hn).
  apply H. apply in_seq in Hn. lia.
Qed.

Lemma fresh_demo : fresh demo.
Proof.
  unfold fresh.
  assert (nodup Z.eq_dec (map (uuid_at demo) (seq 0 92)) =
          map (uuid_at demo) (seq 0 92)) as <- by (vm_compute; reflexivity).
  apply NoDup_nodup.
Qed.

(** ** Shape of a complete run *)

Section Shape.

Variable s : Sources.
Hypothesis Hfresh : fresh s.

Lemma userId_column k :
  map userId (map (row_at s) (seq 0 k)) =
  map (uuid_at s) (map user_block (seq 0 k)).
Proof. now rewrite !map_map. Qed.

Lemma deviceId_column l :
  map deviceId (map (row_at s) l) = map (uuid_at s) (map device_block l).
Proof. now rewrite !map_map. Qed.

Lemma eventId_column l :
  map eventId (map (row_at s) l) = map (uuid_at s) (map event_block l).
Proof. now rewrite !map_map. Qed.

Lemma user_blocks_below k :
  (k <= 80)%nat -> Forall (fun i => (i < 92)%nat) (map user_block (seq 0 k)).
Proof.
  intros Hk. apply Forall_map_seq. intros n Hn. apply blocks_below. lia.
Qed.

Lemma device_blocks_below l :
  Forall (fun n => (n < 80)%nat) l ->
  Forall (fun i => (i < 92)%nat) (map device_block l).
Proof.
  intros Hl. apply Forall_forall. intros x Hx.
  apply in_map_iff in Hx. destruct Hx as (n & <- & Hn).
  rewrite Forall_forall in Hl. now apply blocks_below, Hl.
Qed.

Lemma four_users :
  List.length (nodup Z.eq_dec (map userId (expected_events s))) = 4%nat.
Proof.
  unfold expected_events. rewrite userId_column.
  rewrite (nodup_map_inj Nat.eq_dec Z.eq_dec)
    by (apply uuid_inj_on; [exact Hfresh | now apply user_blocks_below]).
  rewrite length_map. vm_compute. reflexivity.
Qed.

Lemma same_user_rows m :
  (m < 80)%nat ->
  filter (fun ev => userId ev =? uuid_at s (user_block m)) (expected_events s) =
  map (row_at s)
      (filter (fun n => (user_block n =? user_block m)%nat) (seq 0 80)).
Proof.
  intros Hm. unfold expected_events. rewrite filter_map_swap. f_equal.
  apply filter_ext_in. intros n Hn. apply in_seq in Hn.
  cbn [row_at event_at userId].
  destruct (Nat.eqb_spec (user_block n) (user_block m)) as [E | E].
  - rewrite E. apply Z.eqb_refl.
  - apply Z.eqb_neq. intros H. apply E.
    apply (uuid_at_inj s Hfresh); [apply blocks_below; lia ..| exact H].
Qed.

Lemma two_devices m :
  (m < 80)%nat ->
  List.length
    (nodup Z.eq_dec
       (map deviceId
            (filter (fun ev => userId ev =? uuid_at s (user_block m))
                    (expected_events s)))) = 2%nat.
Proof.
  intros Hm. rewrite (same_user_rows m Hm), deviceId_column.
  rewrite (nodup_map_inj Nat.eq_dec Z.eq_dec).
  - rewrite length_map.
    assert (forallb (fun m =>
              (List.length
                 (nodup Nat.eq_dec
                    (map device_block
                       (filter (fun n => (user_block n =? user_block m)%nat)
                               (seq 0 80)))) =? 2)%nat) (seq 0 80) = true)
      as Hall by (vm_compute; reflexivity).
    pose proof (forallb_seq _ _ _ Hall Hm) as H. cbv beta in H.
    now apply Nat.eqb_eq in H.
  - apply uuid_inj_on; [exact Hfresh|]. apply device_blocks_below.
    apply Forall_forall. intros n Hn. apply filter_In in Hn.
    destruct Hn as [Hn _]. apply in_seq in Hn. lia.
Qed.

Lemma ten_events m :
  (m < 80)%nat ->
  count_occ Z.eq_dec (map deviceId (expected_events s))
            (uuid_at s (device_block m)) = 10%nat.
Proof.
  intros Hm. unfold expected_events. rewrite deviceId_column.
  rewrite (count_occ_map_inj Nat.eq_dec Z.eq_dec).
  - assert (forallb (fun m =>
              (count_occ Nat.eq_dec (map device_block (seq 0 80))
                         (device_block m) =? 10)%nat) (seq 0 80) = true)
      as Hall by (vm_compute; reflexivity).
    pose proof (forallb_seq _ _ _ Hall Hm) as H. cbv beta in H.
    now apply Nat.eqb_eq in H.
  - apply uuid_inj_on; [exact Hfresh|].
    change (device_block m :: map device_block (seq 0 80))
      with (map device_block (m :: seq 0 80)).
    apply device_blocks_below. constructor; [exact Hm|].
    apply Forall_forall. intros n Hn. apply in_seq in Hn. lia.
Qed.

End Shape.

Lemma length_expected_events s : List.length (expected_events s) = 80%nat.
Proof. unfold expected_events. now rewrite length_map, length_seq. Qed.

Lemma one_line_each s k :
  Forall (fun l => line_feeds l = 1%nat)
         (map (fun r => Csv.line (map Text.str r))
              (header :: map cells (map (row_at s) (seq 0 k)))).
Proof.
  cbn [map]. constructor; [reflexivity|].
  apply Forall_forall. intros l Hl.
  rewrite !map_map in Hl. apply in_map_iff in Hl.
  destruct Hl as (n & <- & _).
  rewrite line_cells by apply row_at_plain.
  apply line_feeds_event_line, row_at_plain.
Qed.

(** ** Identifiers are 128-bit tokens *)

Lemma set_version4_range b :
  0 <= b < 2 ^ 128 -> 0 <= Uuid.set_version4 b < 2 ^ 128.
Proof.
  intros Hb.
  assert (Uuid.set_version4 b = Uuid.set_version4 b mod 2 ^ 128) as ->.
  { apply Z.bits_inj'. intros n Hn.
    destruct (Z.ltb_spec n 128) as [Hlt | Hge].
    - now rewrite Z.mod_pow2_bits_low.
    - rewrite Z.mod_pow2_bits_high by lia.
      unfold Uuid.set_version4.
      repeat (rewrite Z.lor_spec || rewrite Z.land_spec).
      assert (Z.testbit b n = false) as ->.
      { destruct (Z.eq_dec b 0) as [-> | Hne]; [apply Z.bits_0|].
        apply Z.bits_above_log2; [lia|].
        assert (Z.log2 b < 128) by (apply Z.log2_lt_pow2; lia). lia. }
      rewrite (Z.bits_above_log2 (Z.shiftl 32768 48) n)
        by (cbn; lia).
      rewrite (Z.bits_above_log2 (Z.shiftl 4 76) n) by (cbn; lia).
      reflexivity. }
  apply Z.mod_pos_bound. reflexivity.
Qed.

Lemma uuid_at_range s i : 0 <= uuid_at s i < 2 ^ 128.
Proof. apply set_version4_range, Z.mod_pos_bound. reflexivity. Qed.

Lemma NoDup_map_inj_on {A B} (f : A -> B) l :
  inj_on f l -> NoDup l -> NoDup (map f l).
Proof.
  induction l as [|x l IH]; intros Hinj Hnd; [constructor|].
  inversion Hnd as [|? ? Hx Hl]; subst. cbn [map]. constructor.
  - intros Hin. apply Hx. eapply in_map_inj; eassumption.
  - apply IH; [eapply inj_on_tail; eassumption | assumption].
Qed.

Lemma event_blocks_NoDup k :
  (k <= 80)%nat -> NoDup (map event_block (seq 0 k)).
Proof.
  intros Hk.
  assert (NoDup (map event_block (seq 0 80))) as H.
  { assert (nodup Nat.eq_dec (map event_block (seq 0 80)) =
            map event_block (seq 0 80)) as <- by (vm_compute; reflexivity).
    apply NoDup_nodup. }
  replace 80%nat with (k + (80 - k))%nat in H by lia.
  rewrite seq_app, map_app in H. eapply NoDup_app_remove_r, H.
Qed.

Lemma device_block_geo n m :
  (n < 80)%nat -> (m < 80)%nat ->
  device_block n = device_block m -> geo_pos n = geo_pos m.
Proof.
  intros Hn Hm.
  assert (forallb (fun a => forallb (fun b =>
            negb (device_block a =? device_block b)%nat
            || (geo_pos a =? geo_pos b)%nat) (seq 0 80)) (seq 0 80) = true)
    as Hall by (vm_compute; reflexivity).
  pose proof (forallb_seq _ _ _ (forallb_seq _ _ _ Hall Hn) Hm) as H.
  cbv beta in H. intros E.
  apply orb_true_iff in H. destruct H as [H | H].
  - apply negb_true_iff, Nat.eqb_neq in H. contradiction.
  - now apply Nat.eqb_eq in H.
Qed.

Lemma event_block_apart n m :
  (n < 80)%nat -> (m < 80)%nat ->
  event_block n <> user_block m /\ event_block n <> device_block m.
Proof.
  intros Hn Hm.
  assert (forallb (fun a => forallb (fun b =>
            negb (event_block a =? user_block b)%nat
            && negb (event_block a =? device_block b)%nat) (seq 0 80))
            (seq 0 80) = true)
    as Hall by (vm_compute; reflexivity).
  pose proof (forallb_seq _ _ _ (forallb_seq _ _ _ Hall Hn) Hm) as H.
  cbv beta in H. apply andb_true_iff in H. destruct H as [H1 H2].
  apply negb_true_iff, Nat.eqb_neq in H1, H2. auto.
Qed.

(** ** Identifier texts *)

Definition hex_val (c : ascii) : Z :=
  let n := Z.of_nat (nat_of_ascii c) in
  if n <? 58 then n - 48 else n - 87.

(** A UUID text without its four hyphens. *)
Definition unhyphen (t : string) : string :=
  (substring 0 8 t ++ substring 9 4 t ++ substring 14 4 t ++
   substring 19 4 t ++ substring 24 12 t)%string.

Lemma hex_val_digit d : 0 <= d < 16 -> hex_val (Text.hex_digit d) = d.
Proof.
  intros Hd.
  replace d with (Z.of_nat (Z.to_nat d)) by lia.
  assert (Z.to_nat d < 16)%nat as Hn by lia.
  generalize dependent (Z.to_nat d). intros n Hn.
  do 16 (destruct n as [|n]; [reflexivity|]). lia.
Qed.

Lemma String_inj c t c' t' : String c t = String c' t' -> c = c' /\ t = t'.
Proof. intros H. now injection H. Qed.

Lemma hex_fixed_inj n : forall a b,
  Text.hex_fixed n a = Text.hex_fixed n b ->
  a mod 2 ^ (4 * Z.of_nat n) = b mod 2 ^ (4 * Z.of_nat n).
Proof.
  induction n as [|n IH]; intros a b H.
  - cbn. now rewrite !Z.mod_1_r.
  - cbn [Text.hex_fixed] in H. apply String_inj in H. destruct H as [Hd Ht].
    apply IH in Ht.
    apply (f_equal hex_val) in Hd.
    rewrite !hex_val_digit in Hd by (apply Z.mod_pos_bound; lia).
    rewrite !Z.shiftr_div_pow2 in Hd by lia.
    replace (4 * Z.of_nat (S n)) with (4 * Z.of_nat n + 4) by lia.
    rewrite Z.pow_add_r by lia. change (2 ^ 4) with 16.
    assert (0 < 2 ^ (4 * Z.of_nat n)) as Hp by (apply Z.pow_pos_nonneg; lia).
    rewrite !Z.rem_mul_r by lia. now rewrite Ht, Hd.
Qed.

Lemma unhyphen_str_uuid u : unhyphen (Text.str_uuid u) = Text.hex_fixed 32 u.
Proof. reflexivity. Qed.

Lemma str_uuid_inj u v :
  0 <= u < 2 ^ 128 -> 0 <= v < 2 ^ 128 ->
  Text.str_uuid u = Text.str_uuid v -> u = v.
Proof.
  intros Hu Hv H. apply (f_equal unhyphen) in H.
  rewrite !unhyphen_str_uuid in H. apply hex_fixed_inj in H.
  change (2 ^ (4 * Z.of_nat 32)) with (2 ^ 128) in H.
  now rewrite !Z.mod_small in H by assumption.
Qed.

Lemma lines_of_events s k :
  map (fun r => Csv.line (map Text.str r))
      (map cells (map (row_at s) (seq 0 k))) =
  map event_line (map (row_at s) (seq 0 k)).
Proof.
  rewrite !map_map. apply map_ext. intros n.
  apply line_cells, row_at_plain.
Qed.

Lemma forallb_ok_writes rows : forallb ev_ok (map ok_write rows) = true.
Proof. induction rows as [|r rows IH]; [reflexivity | exact IH]. Qed.

(** The file a run leaves when no file operation fails. *)
Lemma file_complete s :
  (forall i, (i <= 82)%nat -> io_ok s i = true) ->
  file_contents s (io_trace (snd (run s))) =
  Some (String.concat "" (header_line :: map event_line (expected_events s))).
Proof.
  intros Hok.
  pose proof (written_run s) as Hw.
  destruct (run_complete s Hok) as (_ & Hrows & Htr & _).
  rewrite Hrows in Hw. unfold file_contents. rewrite Hw. rewrite Htr.
  cbn [forallb existsb ev_ok is_close andb orb].
  rewrite forallb_app, forallb_ok_writes, existsb_app.
  cbn [forallb existsb ev_ok is_close andb orb].
  rewrite orb_true_r. cbn [andb].
  do 2 f_equal. cbn [map]. f_equal. unfold expected_events.
  apply lines_of_events.
Qed.

(** The sample environment with an entropy source that is stuck. *)
Definition stuck : Sources :=
  mkSources (rand_src demo) (fun _ => 0) (clock_src demo) (io_ok demo) 0%nat.

(** The sample environment with a file whose 50th write call fails: here
    the first call that brings what was handed over above the 8192 bytes
    of the buffer, so the first to flush it; the disk takes 1000 bytes. *)
Definition cut : Sources :=
  mkSources (rand_src demo) (entropy_src demo) (clock_src demo)
            (fun i => negb (i =? 50)%nat) 1000.

(** C1, as amended.  A run in which no file operation fails and the
    identifiers drawn are pairwise distinct ends normally and leaves a file
    of 81 lines: the header and the records of 80 data rows, with 4
    distinct userIds, 2 distinct deviceIds under each userId, and every
    deviceId on exactly 10 rows; identifiers that differ are written
    differently. *)
Theorem complete_run_shape (s : Sources) :
  (forall i, (i <= 82)%nat -> io_ok s i = true) ->
  fresh s ->
  fst (run s) = Ok tt /\
  exists evs,
    csv_rows (snd (run s)) = map VStr fields :: map cells evs /\
    file_contents s (io_trace (snd (run s))) =
      Some (String.concat "" (header_line :: map event_line evs)) /\
    line_feeds (String.concat "" (header_line :: map event_line evs))
      = 81%nat /\
    List.length evs = 80%nat /\
    List.length (nodup Z.eq_dec (map userId evs)) = 4%nat /\
    (forall u, In u (map userId evs) ->
       List.length
         (nodup Z.eq_dec
            (map deviceId (filter (fun ev => userId ev =? u) evs))) = 2%nat) /\
    (forall d, In d (map deviceId evs) ->
       count_occ Z.eq_dec (map deviceId evs) d = 10%nat) /\
    (forall a b, In a evs -> In b evs ->
       (Text.str_uuid (userId a) = Text.str_uuid (userId b) ->
        userId a = userId b) /\
       (Text.str_uuid (deviceId a) = Text.str_uuid (deviceId b) ->
        deviceId a = deviceId b)).
Proof.
  intros Hok Hfresh.
  destruct (run_complete s Hok) as (Hr & Hrows & _).
  split; [exact Hr|].
  exists (expected_events s).
  split; [exact Hrows|].
  split; [now apply file_complete|].
  split.
  { pose proof (one_line_each s 80) as H1.
    cbn [map] in H1. rewrite lines_of_events in H1.
    inversion H1 as [|? ? Hh Ht]; subst.
    rewrite line_feeds_concat.
    - cbn [List.length]. unfold expected_events.
      now rewrite !length_map, length_seq.
    - constructor; [reflexivity | exact Ht]. }
  split; [apply length_expected_events|].
  split; [now apply four_users|].
  split; [|split].
  - intros u Hu. apply in_map_iff in Hu. destruct Hu as (ev & <- & Hev).
    unfold expected_events in Hev. apply in_map_iff in Hev.
    destruct Hev as (m & <- & Hm). apply in_seq in Hm.
    apply (two_devices s Hfresh m). lia.
  - intros d Hd. apply in_map_iff in Hd. destruct Hd as (ev & <- & Hev).
    unfold expected_events in Hev. apply in_map_iff in Hev.
    destruct Hev as (m & <- & Hm). apply in_seq in Hm.
    apply (ten_events s Hfresh m). lia.
  - intros a b Ha Hb.
    unfold expected_events in Ha, Hb. apply in_map_iff in Ha, Hb.
    destruct Ha as (n & <- & _). destruct Hb as (m & <- & _).
    cbn [row_at event_at userId deviceId].
    split; apply str_uuid_inj; apply uuid_at_range.
Qed.

Lemma complete_run_shape_witness :
  fst (run demo) = Ok tt /\
  exists evs,
    csv_rows (snd (run demo)) = map VStr fields :: map cells evs /\
    file_contents demo (io_trace (snd (run demo))) =
      Some (String.concat "" (header_line :: map event_line evs)) /\
    line_feeds (String.concat "" (header_line :: map event_line evs))
      = 81%nat /\
    List.length evs = 80%nat /\
    List.length (nodup Z.eq_dec (map userId evs)) = 4%nat /\
    (forall u, In u (map userId evs) ->
       List.length
         (nodup Z.eq_dec
            (map deviceId (filter (fun ev => userId ev =? u) evs))) = 2%nat) /\
    (forall d, In d (map deviceId evs) ->
       count_occ Z.eq_dec (map deviceId evs) d = 10%nat) /\
    (forall a b, In a evs -> In b evs ->
       (Text.str_uuid (userId a) = Text.str_uuid (userId b) ->
        userId a = userId b) /\
       (Text.str_uuid (deviceId a) = Text.str_uuid (deviceId b) ->
        deviceId a = deviceId b)).
Proof.
  apply (complete_run_shape demo).
  - intros i _. reflexivity.
  - exact fresh_demo.
Defined.

(** C1, as stated, fails twice over.  With a stuck entropy source a run
    completes with one userId and one deviceId on all 80 rows.  With a
    file whose 50th write call fails a run ends with OSError, and the file
    it leaves holds 6 line ends. *)
Lemma every_run_is_not_4_by_2_by_10 :
  (fst (run stuck) = Ok tt /\
   exists evs,
     data_rows (snd (run stuck)) = map cells evs /\
     List.length evs = 80%nat /\
     List.length (nodup Z.eq_dec (map userId evs)) = 1%nat /\
     List.length (nodup Z.eq_dec (map deviceId evs)) = 1%nat) /\
  (fst (run cut) = Raise OSError /\
   List.length (csv_rows (snd (run cut))) = 49%nat /\
   exists t,
     file_contents cut (io_trace (snd (run cut))) = Some t /\
     line_feeds t = 6%nat).
Proof.
  split.
  - split; [vm_compute; reflexivity|].
    exists (expected_events stuck). repeat split; vm_compute; reflexivity.
  - split; [vm_compute; reflexivity|].
    split; [vm_compute; reflexivity|].
    eexists. split; vm_compute; reflexivity.
Qed.

(** C2, as amended.  The geoLocation of row [n] is the one drawn when the
    loop over its device (number [n / 10]) was entered, so the rows of one
    device carry one location and one deviceId; a complete run makes the
    two draws of a location 8 times among its 496 draws.  When the
    identifiers drawn are pairwise distinct, two data rows with the same
    deviceId are rows of one device and carry the same geoLocation. *)
Theorem geoLocation_per_device (s : Sources) :
  (forall n row,
     nth_error (data_rows (snd (run s))) n = Some row ->
     exists ev, as_event row = Some ev /\
                geoLocation ev = geo_at s (62 * (n / 10)) /\
                deviceId ev = uuid_at s (11 * (n / 10) + n / 20 + 1)) /\
  ((forall i, (i <= 82)%nat -> io_ok s i = true) ->
   rand_pos (snd (run s)) = (8 * 2 + 80 * 6)%nat) /\
  (fresh s ->
   forall r1 r2 e1 e2,
     In r1 (data_rows (snd (run s))) -> In r2 (data_rows (snd (run s))) ->
     as_event r1 = Some e1 -> as_event r2 = Some e2 ->
     deviceId e1 = deviceId e2 -> geoLocation e1 = geoLocation e2).
Proof.
  split; [|split].
  - intros n row H. apply data_nth in H. destruct H as (_ & ->).
    exists (row_at s n). split; [apply as_event_cells|]. split; reflexivity.
  - intros Hok. now destruct (run_complete s Hok) as (_ & _ & _ & -> & _).
  - intros Hfresh r1 r2 e1 e2 H1 H2 P1 P2 Hd.
    apply data_in in H1, H2.
    destruct H1 as (n & Hn & ->). destruct H2 as (m & Hm & ->).
    rewrite as_event_cells in P1, P2.
    injection P1 as <-. injection P2 as <-.
    cbn [row_at event_at deviceId geoLocation] in *.
    apply (uuid_at_inj s Hfresh) in Hd; try (apply blocks_below; assumption).
    now rewrite (device_block_geo n m Hn Hm Hd).
Qed.

Lemma geoLocation_per_device_witness :
  fresh demo /\
  deviceId (row_at demo 3) = deviceId (row_at demo 7) /\
  geoLocation (row_at demo 3) = geoLocation (row_at demo 7).
Proof.
  split; [exact fresh_demo|]. split; [reflexivity|].
  apply (proj2 (proj2 (geoLocation_per_device demo)) fresh_demo
           (cells (row_at demo 3)) (cells (row_at demo 7))).
  - apply (nth_error_In _ 3). vm_compute. reflexivity.
  - apply (nth_error_In _ 7). vm_compute. reflexivity.
  - apply as_event_cells.
  - apply as_event_cells.
  - reflexivity.
Defined.

(** C2, as stated, fails: with a stuck entropy source rows 0 and 10 carry
    the same deviceId and different locations. *)
Lemma one_deviceId_two_locations :
  exists e1 e2,
    nth_error (data_rows (snd (run stuck))) 0 = Some (cells e1) /\
    nth_error (data_rows (snd (run stuck))) 10 = Some (cells e2) /\
    deviceId e1 = deviceId e2 /\
    geoLocation e1 <> geoLocation e2.
Proof.
  exists (row_at stuck 0), (row_at stuck 10).
  repeat split; try (vm_compute; reflexivity).
  intros H. vm_compute in H. discriminate H.
Qed.

(** C6, as amended.  The eventId of row [n] is the result of a call of
    [uuid.uuid4()] of its own, call number [n + n / 10 + n / 20 + 2] of the
    run, which serves no other row and no userId or deviceId; it is a
    number below 2^128.  The script compares no identifiers: the eventIds
    are pairwise distinct, and differ from every userId and deviceId of
    the file, when the results of the calls are pairwise distinct. *)
Theorem eventIds_distinct (s : Sources) :
  (forall n row,
     nth_error (data_rows (snd (run s))) n = Some row ->
     exists ev, as_event row = Some ev /\
                eventId ev = uuid_at s (n + n / 10 + n / 20 + 2) /\
                0 <= eventId ev < 2 ^ 128) /\
  (forall n m, (n < 80)%nat -> (m < 80)%nat ->
     (n <> m -> n + n / 10 + n / 20 + 2 <> m + m / 10 + m / 20 + 2) /\
     n + n / 10 + n / 20 + 2 <> 23 * (m / 20) /\
     n + n / 10 + n / 20 + 2 <> 11 * (m / 10) + m / 20 + 1)%nat /\
  (fresh s ->
   exists evs,
     data_rows (snd (run s)) = map cells evs /\
     NoDup (map eventId evs) /\
     (forall e e', In e evs -> In e' evs ->
                   eventId e <> userId e' /\ eventId e <> deviceId e')).
Proof.
  split; [|split].
  - intros n row H. apply data_nth in H. destruct H as (_ & ->).
    exists (row_at s n). split; [apply as_event_cells|].
    split; [reflexivity | apply uuid_at_range].
  - intros n m Hn Hm.
    destruct (event_block_apart n m Hn Hm) as [Hu Hd].
    split; [|split; assumption].
    intros Hne E. apply Hne.
    pose proof (event_blocks_NoDup 80 (Nat.le_refl 80)) as Hnd.
    rewrite (NoDup_nth _ (event_block 0)) in Hnd.
    rewrite length_map, length_seq in Hnd.
    apply (Hnd n m Hn Hm).
    rewrite !map_nth, !seq_nth by assumption. exact E.
  - intros Hfresh.
    destruct (data_rows_run s) as (k & Hk & Hrows).
    exists (map (row_at s) (seq 0 k)). split; [exact Hrows|]. split.
    + rewrite eventId_column. apply NoDup_map_inj_on.
      * apply uuid_inj_on; [exact Hfresh|].
        apply Forall_map_seq. intros n Hn. apply blocks_below. lia.
      * now apply event_blocks_NoDup.
    + intros e e' He He'.
      apply in_map_iff in He, He'.
      destruct He as (n & <- & Hn). destruct He' as (m & <- & Hm).
      apply in_seq in Hn, Hm.
      assert (n < 80)%nat as Hn' by lia. assert (m < 80)%nat as Hm' by lia.
      destruct (event_block_apart n m Hn' Hm') as [Hu Hd].
      cbn [row_at event_at eventId userId deviceId].
      split; intros E; apply (uuid_at_inj s Hfresh) in E;
        try (apply blocks_below; assumption); contradiction.
Qed.

Lemma eventIds_distinct_witness :
  exists evs,
    data_rows (snd (run demo)) = map cells evs /\
    NoDup (map eventId evs) /\
    (forall e e', In e evs -> In e' evs ->
                  eventId e <> userId e' /\ eventId e <> deviceId e').
Proof.
  exact (proj2 (proj2 (eventIds_distinct demo)) fresh_demo).
Defined.

(** C6, as stated, fails: with a stuck entropy source every call of
    [uuid.uuid4()] returns the same identifier, a complete run writes 80
    rows and they all carry one eventId. *)
Lemma one_eventId_on_every_row :
  fst (run stuck) = Ok tt /\
  exists evs,
    data_rows (snd (run stuck)) = map cells evs /\
    List.length evs = 80%nat /\
    List.length (nodup Z.eq_dec (map eventId evs)) = 1%nat.
Proof.
  split; [vm_compute; reflexivity|].
  exists (expected_events stuck). repeat split; vm_compute; reflexivity.
Qed.

(** * The file *)



Lemma append_nil_r (a : string) : (a ++ "")%string = a.
Proof. induction a as [|c a IH]; cbn; [reflexivity | now rewrite IH]. Qed.

Lemma concat_cons x l :
  String.concat "" (x :: l) = (x ++ String.concat "" l)%string.
Proof.
  destruct l as [|y l]; cbn [String.concat].
  - now rewrite append_nil_r.
  - reflexivity.
Qed.

Lemma concat_app l1 l2 :
  String.concat "" (l1 ++ l2) =
  (String.concat "" l1 ++ String.concat "" l2)%string.
Proof.
  induction l1 as [|x l1 IH]; [reflexivity|].
  rewrite <- app_comm_cons, !concat_cons, IH. now rewrite append_assoc.
Qed.

(** * File errors *)

Definition count (p : io_event -> bool) (tr : list io_event) : nat :=
  List.length (filter p tr).

(** The file operations of a run that has [rows] to write, read off the
    outcomes [ok] of the successive operations: the rows are attempted one
    by one from operation [i] on, up to the first failure. *)
Fixpoint replay_writes (ok : nat -> bool) (i : nat) (rows : list (list value))
  : list io_event * bool * nat :=
  match rows with
  | [] => ([], true, i)
  | row :: rest =>
      if ok i
      then let '(evs, fine, j) := replay_writes ok (S i) rest in
           (ok_write row :: evs, fine, j)
      else ([bad_write row], false, S i)
  end.

Definition replay (ok : nat -> bool) (rows : list (list value))
  : outcome unit * list io_event :=
  if ok 0%nat
  then let '(evs, fine, j) := replay_writes ok 1 rows in
       (if fine && ok j then Ok tt else Raise OSError,
        EvOpen path true :: evs ++ [EvClose (ok j)])
  else (Raise OSError, [EvOpen path false]).

Section Replay.

Lemma replay_writes_all ok rows : forall a,
  (forall i, (a <= i < a + List.length rows)%nat -> ok i = true) ->
  replay_writes ok a rows =
  (map ok_write rows, true, (a + List.length rows)%nat).
Proof.
  induction rows as [|row rows IH]; intros a H; cbn [replay_writes map].
  - now rewrite Nat.add_0_r.
  - cbn [List.length] in *. rewrite H by lia.
    rewrite IH by (intros i Hi; apply H; lia).
    f_equal. lia.
Qed.

Lemma replay_writes_fail ok done row rest : forall a,
  (forall i, (a <= i < a + List.length done)%nat -> ok i = true) ->
  ok (a + List.length done)%nat = false ->
  replay_writes ok a (done ++ row :: rest) =
  (map ok_write done ++ [bad_write row], false,
   S (a + List.length done)).
Proof.
  induction done as [|d done IH]; intros a H Hbad;
    cbn [replay_writes map app List.length] in *.
  - rewrite Nat.add_0_r in Hbad. rewrite Hbad. now rewrite Nat.add_0_r.
  - rewrite H by lia.
    rewrite IH;
      [ f_equal; f_equal; lia
      | intros i Hi; apply H; lia
      | now replace (S a + List.length done)%nat
          with (a + S (List.length done))%nat by lia ].
Qed.

Lemma replay_writes_ext ok1 ok2 rows : forall a,
  (forall i, (a <= i < a + List.length rows)%nat -> ok1 i = ok2 i) ->
  replay_writes ok1 a rows = replay_writes ok2 a rows.
Proof.
  induction rows as [|row rows IH]; intros a H; [reflexivity|].
  cbn [replay_writes List.length] in *.
  rewrite <- (H a) by lia. destruct (ok1 a); [|reflexivity].
  rewrite (IH (S a)) by (intros i Hi; apply H; lia). reflexivity.
Qed.

Lemma replay_writes_next ok rows : forall a,
  (snd (replay_writes ok a rows) <= a + List.length rows)%nat.
Proof.
  induction rows as [|row rows IH]; intros a; cbn [replay_writes List.length].
  - cbn. lia.
  - destruct (ok a); [|cbn; lia].
    specialize (IH (S a)).
    destruct (replay_writes ok (S a) rows) as [[evs fine] j]. cbn in *. lia.
Qed.

Lemma replay_ext ok1 ok2 rows :
  (forall i, (i <= S (List.length rows))%nat -> ok1 i = ok2 i) ->
  replay ok1 rows = replay ok2 rows.
Proof.
  intros H. unfold replay. rewrite <- (H 0%nat) by lia.
  destruct (ok1 0%nat); [|reflexivity].
  rewrite <- (replay_writes_ext ok1 ok2 rows 1) by (intros i Hi; apply H; lia).
  pose proof (replay_writes_next ok1 rows 1) as Hj.
  destruct (replay_writes ok1 1 rows) as [[evs fine] j]. cbn [snd] in Hj.
  now rewrite <- (H j) by lia.
Qed.

(** The run performs exactly these operations. *)
Lemma run_replay s :
  (fst (run s), io_trace (snd (run s))) = replay (io_ok s) (table s).
Proof.
  unfold replay.
  destruct (run_spec s) as [Hopen -> -> _ | Hok -> -> _ _
                            | done row rest Ht Hok Hbad -> -> _].
  - now rewrite Hopen.
  - rewrite (Hok 0%nat) by lia.
    rewrite replay_writes_all by (intros i Hi; apply Hok; lia).
    rewrite length_table. cbn [Nat.add andb]. reflexivity.
  - rewrite (Hok 0%nat) by lia. rewrite Ht.
    rewrite replay_writes_fail
      by (try (intros i Hi; apply Hok; lia); exact Hbad).
    cbn [andb Nat.add]. rewrite <- app_assoc. reflexivity.
Qed.

End Replay.

Section Trace.

Lemma no_open_in_writes rows : filter is_open (map ok_write rows) = [].
Proof. induction rows as [|r rows IH]; [reflexivity | exact IH]. Qed.

Lemma no_close_in_writes rows : filter is_close (map ok_write rows) = [].
Proof. induction rows as [|r rows IH]; [reflexivity | exact IH]. Qed.

End Trace.

Section Disk.

Lemma handed_app a b : handed (a ++ b) = handed a ++ handed b.
Proof. apply flat_map_app. Qed.

Lemma handed_ok_writes rows :
  handed (map ok_write rows) = map (fun r => Csv.line (map Text.str r)) rows.
Proof.
  induction rows as [|r rows IH]; [reflexivity|].
  cbn [map handed flat_map ok_write app]. f_equal. exact IH.
Qed.

Lemma substring_prefix t : forall n,
  exists rest, t = (substring 0 n t ++ rest)%string.
Proof.
  induction t as [|c t IH]; intros n.
  - exists EmptyString. now destruct n.
  - destruct n as [|n]; cbn [substring].
    + now exists (String c t).
    + destruct (IH n) as [rest Hrest]. exists rest.
      cbn [String.append]. now rewrite <- Hrest.
Qed.

(** The file after an open that succeeded, some write calls and the
    close. *)
Lemma file_of_opened s ws c :
  filter is_close ws = [] ->
  file_contents s (EvOpen path true :: ws ++ [EvClose c]) =
  if forallb ev_ok ws && c
  then Some (String.concat "" (written ws))
  else Some (substring 0 (disk_room s) (String.concat "" (handed ws))).
Proof.
  intros _. unfold file_contents.
  cbn [forallb existsb ev_ok is_close andb orb].
  rewrite forallb_app, existsb_app.
  cbn [forallb existsb ev_ok is_close andb orb].
  rewrite orb_true_r, !andb_true_r.
  change (EvOpen path true :: ws ++ [EvClose c])
    with ([EvOpen path true] ++ ws ++ [EvClose c]).
  rewrite !written_app, !handed_app.
  cbn [written handed flat_map app]. now rewrite !app_nil_r.
Qed.

End Disk.




(** C9, as amended.  The file is opened once, first.  If that fails the
    run ends there with OSError: nothing is written, nothing is closed.
    Otherwise the records are handed over one write call each, in order;
    the first call that fails ends the loop, no operation is repeated, the
    file is closed (once, last) and OSError leaves the run; when every
    write succeeds the file is closed all the same.  The run ends normally
    exactly when every operation succeeded, and then the file holds all
    81 records.  After a failure the file holds a byte prefix of the
    complete file, which may stop inside a record. *)
Theorem file_errors_are_fatal (s : Sources) :
  ((io_ok s 0 = false /\
    fst (run s) = Raise OSError /\
    io_trace (snd (run s)) = [EvOpen path false])
   \/
   (exists c,
      io_trace (snd (run s)) =
        EvOpen path true :: map ok_write (table s) ++ [EvClose c] /\
      fst (run s) = (if c then Ok tt else Raise OSError))
   \/
   (exists done row rest c,
      table s = done ++ row :: rest /\
      io_trace (snd (run s)) =
        EvOpen path true :: map ok_write done ++ [bad_write row; EvClose c] /\
      fst (run s) = Raise OSError)) /\
  (exists rest, table s = csv_rows (snd (run s)) ++ rest) /\
  written (io_trace (snd (run s))) =
    map (fun r => Csv.line (map Text.str r)) (csv_rows (snd (run s))) /\
  (fst (run s) = Ok tt <-> forallb ev_ok (io_trace (snd (run s))) = true) /\
  count is_open (io_trace (snd (run s))) = 1%nat /\
  count is_close (io_trace (snd (run s))) =
    (if io_ok s 0 then 1 else 0)%nat /\
  (io_ok s 0 = false ->
   file_contents s (io_trace (snd (run s))) = None) /\
  (io_ok s 0 = true ->
   exists t rest,
     file_contents s (io_trace (snd (run s))) = Some t /\
     String.concat "" (map (fun r => Csv.line (map Text.str r)) (table s)) =
       (t ++ rest)%string) /\
  (fst (run s) = Ok tt ->
   file_contents s (io_trace (snd (run s))) =
     Some (String.concat ""
             (map (fun r => Csv.line (map Text.str r)) (table s)))).
Proof.
  pose proof (written_run s) as Hw.
  destruct (run_spec s) as [Hopen Hr Htr Hrows | Hok Hr Htr Hrows _
                            | done row rest Ht Hok Hbad Hr Htr Hrows].
  - split; [left; auto|].
    split; [exists (table s); now rewrite Hrows|].
    split; [exact Hw|].
    rewrite Hr, Htr, Hopen. repeat split; try discriminate; reflexivity.
  - split; [right; left; exists (io_ok s 82); auto|].
    split; [exists []; now rewrite Hrows, app_nil_r|].
    split; [exact Hw|].
    rewrite Hr, Htr, (Hok 0%nat) by lia. unfold count.
    rewrite (file_of_opened s _ _ (no_close_in_writes (table s))).
    rewrite forallb_ok_writes, written_ok_writes, handed_ok_writes.
    cbn [forallb filter ev_ok is_open is_close andb].
    rewrite forallb_app, filter_app, filter_app, forallb_ok_writes,
      no_open_in_writes, no_close_in_writes.
    cbn [forallb filter ev_ok is_open is_close andb app List.length].
    destruct (io_ok s 82); repeat split;
      try reflexivity; try discriminate.
    + intros _. eexists. exists EmptyString.
      split; [reflexivity | now rewrite append_nil_r].
    + intros _.
      destruct (substring_prefix
                  (String.concat ""
                     (map (fun r => Csv.line (map Text.str r)) (table s)))
                  (disk_room s)) as [rest Hrest].
      eexists. exists rest. split; [reflexivity | exact Hrest].
  - split; [right; right;
            exists done, row, rest, (io_ok s (S (S (List.length done))));
            auto|].
    split; [exists (row :: rest); now rewrite Hrows|].
    split; [exact Hw|].
    rewrite Hr, Htr, (Hok 0%nat) by lia. unfold count.
    change (map ok_write done ++
            [bad_write row; EvClose (io_ok s (S (S (List.length done))))])
      with (map ok_write done ++
            [bad_write row] ++ [EvClose (io_ok s (S (S (List.length done))))]).
    rewrite app_assoc.
    rewrite (file_of_opened s (map ok_write done ++ [bad_write row]) _)
      by (rewrite filter_app, no_close_in_writes; reflexivity).
    cbn [forallb filter ev_ok is_open is_close andb].
    rewrite !forallb_app, !filter_app,
      forallb_ok_writes, no_open_in_writes, no_close_in_writes, handed_app,
      handed_ok_writes.
    cbn [forallb filter ev_ok is_open is_close andb app List.length bad_write
         handed flat_map].
    repeat split; try reflexivity; try discriminate.
    intros _.
    destruct (substring_prefix
                (String.concat ""
                   (map (fun r => Csv.line (map Text.str r)) done ++
                    [Csv.line (map Text.str row)]))
                (disk_room s)) as [r1 Hr1].
    eexists. eexists. split; [reflexivity|].
    rewrite Ht.
    change (done ++ row :: rest) with (done ++ [row] ++ rest).
    rewrite app_assoc, map_app, concat_app, map_app. cbn [map].
    rewrite Hr1 at 1. rewrite append_assoc. reflexivity.
Qed.

(** C9, as stated, fails on "no partial-row writes": the file is buffered,
    and the flush that fails leaves what the disk took.  Here 50 records
    (8217 bytes) were handed over, the 50th call raised, and the file
    holds 1000 bytes: six whole records and the beginning of the seventh,
    stopping at a hyphen inside an identifier. *)
Lemma failed_flush_cuts_a_record :
  fst (run cut) = Raise OSError /\
  List.length (handed (io_trace (snd (run cut)))) = 50%nat /\
  Z.of_nat (String.length
              (String.concat "" (handed (io_trace (snd (run cut))))))
    = 8217 /\
  exists t,
    file_contents cut (io_trace (snd (run cut))) = Some t /\
    String.length t = 1000%nat /\
    line_feeds t = 6%nat /\
    get 999 t = Some "-"%char.
Proof.
  split; [vm_compute; reflexivity|].
  split; [vm_compute; reflexivity|].
  split; [vm_compute; reflexivity|].
  eexists. split; [vm_compute; reflexivity|].
  repeat split; vm_compute; reflexivity.
Qed.

(** * Determinism *)

(** The sample environment with other entropy, all else equal. *)
Definition demo2 : Sources :=
  mkSources (rand_src demo) (fun n => entropy_src demo n + 1)
            (clock_src demo) (io_ok demo) (disk_room demo).

Section Determinism.

Variables s1 s2 : Sources.
Hypothesis Hrand : forall i, (i < 496)%nat -> rand_src s1 i = rand_src s2 i.
Hypothesis Hclock :
  forall i, (i < 80)%nat ->
            Float.to_int (clock_src s1 i) = Float.to_int (clock_src s2 i).
Hypothesis Huuid : forall i, (i < 92)%nat -> uuid_at s1 i = uuid_at s2 i.

Lemma positions_below n :
  (n < 80)%nat -> (rand_at n + 5 < 496 /\ geo_pos n + 1 < 496)%nat.
Proof.
  intros Hn.
  assert (forallb (fun n => (rand_at n + 5 <? 496)%nat &&
                            (geo_pos n + 1 <? 496)%nat) (seq 0 80) = true)
    as Hall by (vm_compute; reflexivity).
  pose proof (forallb_seq _ _ _ Hall Hn) as H. cbv beta in H.
  apply andb_true_iff in H. destruct H as [H1 H2].
  apply Nat.ltb_lt in H1, H2. auto.
Qed.

Lemma geo_at_ext p : (p + 1 < 496)%nat -> geo_at s1 p = geo_at s2 p.
Proof.
  intros Hp. unfold geo_at, state_at.
  now rewrite (Hrand p), (Hrand (S p)) by lia.
Qed.

Lemma row_at_ext n : (n < 80)%nat -> row_at s1 n = row_at s2 n.
Proof.
  intros Hn.
  destruct (positions_below n Hn) as [Hr Hg].
  destruct (blocks_below n Hn) as (Hu & Hd & He).
  unfold row_at, event_at, epochS_at, expiry_at, epochS_at, offset_at, ttl_at,
    tempC_at, humidityPct_at, pressurePa_at.
  rewrite (Huuid _ Hu), (Huuid _ Hd), (Huuid _ He), (geo_at_ext _ Hg).
  rewrite (Hclock n Hn).
  rewrite (Hrand (rand_at n)), (Hrand (1 + rand_at n)%nat),
    (Hrand (2 + rand_at n)%nat), (Hrand (3 + rand_at n)%nat),
    (Hrand (4 + rand_at n)%nat), (Hrand (5 + rand_at n)%nat) by lia.
  reflexivity.
Qed.

Lemma table_ext : table s1 = table s2.
Proof.
  rewrite !table_flat. unfold header, expected_events. f_equal. f_equal.
  apply map_ext_in. intros n Hn. apply in_seq in Hn. apply row_at_ext. lia.
Qed.

End Determinism.

Lemma expected_events_ext (s1 s2 : Sources) :
  (forall i, (i < 496)%nat -> rand_src s1 i = rand_src s2 i) ->
  (forall i, (i < 80)%nat ->
             Float.to_int (clock_src s1 i) = Float.to_int (clock_src s2 i)) ->
  (forall i, (i < 92)%nat -> uuid_at s1 i = uuid_at s2 i) ->
  expected_events s1 = expected_events s2.
Proof.
  intros Hrand Hclock Huuid. unfold expected_events.
  apply map_ext_in. intros n Hn. apply in_seq in Hn.
  apply row_at_ext; auto. lia.
Qed.

(** C10, as amended.  Two runs in which no file operation fails and that
    see the same outcomes of the random generator, the same clock readings
    in whole seconds and the same identifiers from [uuid.uuid4()] perform
    the same file operations with the same payloads and leave the same
    bytes. *)
Theorem same_draws_same_file (s1 s2 : Sources) :
  (forall i, (i < 496)%nat -> rand_src s1 i = rand_src s2 i) ->
  (forall i, (i < 80)%nat ->
             Float.to_int (clock_src s1 i) = Float.to_int (clock_src s2 i)) ->
  (forall i, (i < 92)%nat -> uuid_at s1 i = uuid_at s2 i) ->
  (forall i, (i <= 82)%nat -> io_ok s1 i = true) ->
  (forall i, (i <= 82)%nat -> io_ok s2 i = true) ->
  fst (run s1) = fst (run s2) /\
  io_trace (snd (run s1)) = io_trace (snd (run s2)) /\
  file_contents s1 (io_trace (snd (run s1))) =
  file_contents s2 (io_trace (snd (run s2))) /\
  exists t, file_contents s1 (io_trace (snd (run s1))) = Some t.
Proof.
  intros Hrand Hclock Huuid Hio1 Hio2.
  pose proof (run_replay s1) as H1. pose proof (run_replay s2) as H2.
  rewrite (table_ext s1 s2 Hrand Hclock Huuid) in H1.
  rewrite (replay_ext (io_ok s1) (io_ok s2)) in H1
    by (intros i Hi; rewrite length_table in Hi;
        rewrite Hio1, Hio2 by lia; reflexivity).
  rewrite <- H2 in H1. injection H1 as Hr Htr.
  rewrite (file_complete s1 Hio1), (file_complete s2 Hio2).
  rewrite (expected_events_ext s1 s2 Hrand Hclock Huuid).
  repeat split; try assumption. now eexists.
Qed.

Lemma same_draws_same_file_witness :
  fst (run demo) =
  fst (run (mkSources (rand_src demo) (entropy_src demo) (clock_src demo)
                      (fun i => (i <? 90)%nat) 7)) /\
  io_trace (snd (run demo)) =
  io_trace (snd (run (mkSources (rand_src demo) (entropy_src demo)
                                (clock_src demo) (fun i => (i <? 90)%nat)
                                7))) /\
  file_contents demo (io_trace (snd (run demo))) =
  file_contents
    (mkSources (rand_src demo) (entropy_src demo) (clock_src demo)
               (fun i => (i <? 90)%nat) 7)
    (io_trace (snd (run (mkSources (rand_src demo) (entropy_src demo)
                                   (clock_src demo) (fun i => (i <? 90)%nat)
                                   7)))) /\
  exists t, file_contents demo (io_trace (snd (run demo))) = Some t.
Proof.
  apply (same_draws_same_file demo
           (mkSources (rand_src demo) (entropy_src demo) (clock_src demo)
                      (fun i => (i <? 90)%nat) 7)).
  - intros i _. reflexivity.
  - intros i _. reflexivity.
  - intros i _. reflexivity.
  - intros i _. reflexivity.
  - intros i Hi. cbn [io_ok]. apply Nat.ltb_lt. lia.
Defined.

(** C10, as stated, fails: the identifiers come from [os.urandom], which
    neither the seed of [random] nor the clock determines.  Two
    environments with the same random outcomes, the same clock and a file
    that never fails both complete, and leave different files. *)
Lemma same_seed_different_files :
  rand_src demo2 = rand_src demo /\
  clock_src demo2 = clock_src demo /\
  io_ok demo2 = io_ok demo /\
  fst (run demo2) = Ok tt /\ fst (run demo) = Ok tt /\
  file_contents demo2 (io_trace (snd (run demo2))) <>
  file_contents demo (io_trace (snd (run demo))).
Proof.
  repeat split; try (vm_compute; reflexivity).
  intros H.
  assert (match file_contents demo2 (io_trace (snd (run demo2))),
                file_contents demo (io_trace (snd (run demo))) with
          | Some a, Some b => String.eqb a b
          | _, _ => true
          end = false) as E by (vm_compute; reflexivity).
  rewrite H in E.
  destruct (file_contents demo (io_trace (snd (run demo))));
    [rewrite String.eqb_refl in E|]; discriminate E.
Qed.

(** * Further properties of the script *)

(** ** The location generator *)

Lemma random_geoLocation_eq (w : World) :
  random_geoLocation w =
  (Ok (geo_at (env w) (rand_pos w)),
   mkWorld (env w) (2 + rand_pos w) (entropy_pos w) (clock_pos w)
           (io_pos w) (io_trace w) (csv_rows w)).
Proof.
  unfold random_geoLocation, geo_at, state_at.
  rewrite (bind_ok _ _ _
             (nth (Z.to_nat (rand_src (env w) (rand_pos w) mod 3))
                  (map fst locations) "TX")
             (mkWorld (env w) (S (rand_pos w)) (entropy_pos w) (clock_pos w)
                      (io_pos w) (io_trace w) (csv_rows w)))
    by reflexivity.
  pose proof (Z.mod_pos_bound (rand_src (env w) (rand_pos w)) 3 eq_refl) as Hm.
  set (m := rand_src (env w) (rand_pos w) mod 3) in *.
  assert (m = 0 \/ m = 1 \/ m = 2) as [-> | [-> | ->]] by lia;
    reflexivity.
Qed.

Lemma geo_at_member s rp :
  exists state cities city,
    In (state, cities) locations /\ In city cities /\
    geo_at s rp = ("Earth-US-" ++ state ++ "-" ++ city)%string.
Proof.
  unfold geo_at, state_at.
  pose proof (Z.mod_pos_bound (rand_src s rp) 3 eq_refl) as Hm.
  set (m := rand_src s rp mod 3) in *.
  assert (m = 0 \/ m = 1 \/ m = 2) as [-> | [-> | ->]] by lia;
    cbn [Z.to_nat nth map fst locations cities_of find String.eqb Ascii.eqb
         Bool.eqb snd List.length hd];
    match goal with
    | |- context [rand_src s (S rp) mod ?n] =>
        let k := eval vm_compute in n in
        change n with k;
        pose proof (Z.mod_pos_bound (rand_src s (S rp)) k eq_refl) as Hc;
        set (c := rand_src s (S rp) mod k) in *
    end.
  - exists "TX", ["Austin"; "San Antonio"].
    assert (c = 0 \/ c = 1) as [-> | ->] by lia;
      [exists "Austin" | exists "San Antonio"]; cbn; auto 10.
  - exists "CA", ["Berkely"; "Las Angeles"; "San Diego"].
    assert (c = 0 \/ c = 1 \/ c = 2) as [-> | [-> | ->]] by lia;
      [exists "Berkely" | exists "Las Angeles" | exists "San Diego"];
      cbn; auto 10.
  - exists "VT", ["Burlington"; "St. Albans"].
    assert (c = 0 \/ c = 1) as [-> | ->] by lia;
      [exists "Burlington" | exists "St. Albans"]; cbn; auto 10.
Qed.

(** X1. [random_geoLocation] never raises (the state it draws is a key of
    the table, and no state has an empty list of cities), makes exactly two
    draws and touches nothing else; its result is Earth-US-state-city for a
    state of the table and a city listed under that state, and each of
    these can come out. *)
Theorem random_geoLocation_total (w : World) :
  (exists state cities city,
     In (state, cities) locations /\ In city cities /\
     random_geoLocation w =
       (Ok ("Earth-US-" ++ state ++ "-" ++ city)%string,
        mkWorld (env w) (2 + rand_pos w) (entropy_pos w) (clock_pos w)
                (io_pos w) (io_trace w) (csv_rows w))) /\
  (forall state cities city,
     In (state, cities) locations -> In city cities ->
     exists w', fst (random_geoLocation w') =
                Ok ("Earth-US-" ++ state ++ "-" ++ city)%string).
Proof.
  split.
  - destruct (geo_at_member (env w) (rand_pos w))
      as (state & cities & city & Hs & Hc & Hg).
    exists state, cities, city. rewrite random_geoLocation_eq, Hg. auto.
  - intros state cities city Hs Hc.
    assert (exists i j,
              nth (Z.to_nat i) (map fst locations) "TX" = state /\
              0 <= i < 3 /\ 0 <= j < Z.of_nat (List.length cities) /\
              nth (Z.to_nat j) cities (hd "" cities) = city /\
              cities_of state = cities) as (i & j & Hi & Hir & Hjr & Hj & Hcs).
    { cbn in Hs.
      destruct Hs as [Hs | [Hs | [Hs | []]]]; injection Hs as <- <-; cbn in Hc.
      - destruct Hc as [<- | [<- | []]];
          [exists 0, 0 | exists 0, 1]; cbn; repeat split; lia.
      - destruct Hc as [<- | [<- | [<- | []]]];
          [exists 1, 0 | exists 1, 1 | exists 1, 2]; cbn; repeat split; lia.
      - destruct Hc as [<- | [<- | []]];
          [exists 2, 0 | exists 2, 1]; cbn; repeat split; lia. }
    exists (boot (mkSources (fun n => match n with O => i | _ => j end)
                            (fun _ => 0) (fun _ => 0%Q) (fun _ => true) 0%nat)).
    rewrite random_geoLocation_eq. cbn [fst boot env rand_pos]. f_equal.
    unfold geo_at, state_at. cbn [rand_src].
    rewrite (Z.mod_small i 3) by lia. rewrite Hi, Hcs.
    rewrite (Z.mod_small j) by lia. now rewrite Hj.
Qed.

(** ** The window of an expiry *)

(** X2. A data row's expiry is 0 or lies 60 to 600 seconds after the row's
    epochS, hence between 9940 seconds before and 500 seconds after the
    clock reading (in whole seconds) taken for the row: an expiry may
    already be in the past when the row is generated. *)
Theorem expiry_window (s : Sources) (n : nat) (row : list value) :
  nth_error (data_rows (snd (run s))) n = Some row ->
  exists ev, as_event row = Some ev /\
    (expiry ev = 0 \/
     (epochS ev + 60 <= expiry ev <= epochS ev + 600 /\
      Float.to_int (clock_src s n) - 9940 <= expiry ev
        <= Float.to_int (clock_src s n) + 500)).
Proof.
  intros H. apply data_nth in H. destruct H as (_ & ->).
  exists (row_at s n). split; [apply as_event_cells|].
  cbn [row_at event_at expiry epochS].
  pose proof (ttl_at_range s (rand_at n)).
  pose proof (offset_at_range s (rand_at n)).
  destruct (expiry_at_cases s (rand_at n) n) as [-> | ->]; [now left|right].
  unfold epochS_at. lia.
Qed.

Lemma expiry_window_witness :
  exists ev, as_event (cells (row_at demo 1)) = Some ev /\
    (expiry ev = 0 \/
     (epochS ev + 60 <= expiry ev <= epochS ev + 600 /\
      Float.to_int (clock_src demo 1) - 9940 <= expiry ev
        <= Float.to_int (clock_src demo 1) + 500)).
Proof. apply (expiry_window demo 1). vm_compute. reflexivity. Defined.

(** ** Order of the rows *)

Lemma blocks_monotone a b :
  (a <= b)%nat -> (b < 80)%nat ->
  (user_block a <= user_block b /\ device_block a <= device_block b)%nat /\
  (device_block a = device_block b -> user_block a = user_block b) /\
  user_block a <> device_block b /\ user_block b <> device_block a.
Proof.
  intros Hab Hb.
  assert (forallb (fun a => forallb (fun b =>
            negb (a <=? b)%nat ||
            ((user_block a <=? user_block b)%nat &&
             (device_block a <=? device_block b)%nat &&
             (negb (device_block a =? device_block b)%nat
              || (user_block a =? user_block b)%nat) &&
             negb (user_block a =? device_block b)%nat &&
             negb (user_block b =? device_block a)%nat)) (seq 0 80))
            (seq 0 80) = true)
    as Hall by (vm_compute; reflexivity).
  assert (a < 80)%nat as Ha by lia.
  pose proof (forallb_seq _ _ _ (forallb_seq _ _ _ Hall Ha) Hb) as H.
  cbv beta in H. apply orb_true_iff in H. destruct H as [H | H].
  - apply negb_true_iff, Nat.leb_gt in H. lia.
  - repeat (apply andb_true_iff in H; destruct H as [H ?]).
    repeat match goal with
           | X : negb _ = true |- _ => apply negb_true_iff, Nat.eqb_neq in X
           | X : (_ <=? _)%nat = true |- _ => apply Nat.leb_le in X
           end.
    repeat split; try assumption.
    match goal with
    | X : _ || _ = true |- _ =>
        apply orb_true_iff in X; destruct X as [X | X];
        [apply negb_true_iff, Nat.eqb_neq in X; intros; contradiction
        |apply Nat.eqb_eq in X; intros; exact X]
    end.
Qed.

(** X3. When the identifiers drawn are pairwise distinct, the rows of a
    device are consecutive in the file, so are the rows of a user, and a
    deviceId appears under one userId only. *)
Theorem rows_grouped (s : Sources) :
  fresh s ->
  forall i j k ei ej ek,
    (i <= j <= k)%nat ->
    nth_error (data_rows (snd (run s))) i = Some (cells ei) ->
    nth_error (data_rows (snd (run s))) j = Some (cells ej) ->
    nth_error (data_rows (snd (run s))) k = Some (cells ek) ->
    (deviceId ei = deviceId ek -> deviceId ej = deviceId ei) /\
    (userId ei = userId ek -> userId ej = userId ei) /\
    (deviceId ei = deviceId ek -> userId ei = userId ek).
Proof.
  intros Hfresh i j k ei ej ek Hijk Hi Hj Hk.
  apply data_nth in Hi, Hj, Hk.
  destruct Hi as (Hi & Ei), Hj as (Hj & Ej), Hk as (Hk & Ek).
  assert (forall e e', cells e = cells e' -> e = e') as Hcells.
  { intros e e' H. apply (f_equal as_event) in H.
    rewrite !as_event_cells in H. now injection H. }
  apply Hcells in Ei, Ej, Ek. subst ei ej ek.
  cbn [row_at event_at deviceId userId].
  destruct (blocks_monotone i j ltac:(lia) Hj) as ((Hu1 & Hd1) & _).
  destruct (blocks_monotone j k ltac:(lia) Hk) as ((Hu2 & Hd2) & _).
  destruct (blocks_monotone i k ltac:(lia) Hk) as (_ & Hdu & _).
  destruct (blocks_below i Hi) as (Bu1 & Bd1 & _).
  destruct (blocks_below j Hj) as (Bu2 & Bd2 & _).
  destruct (blocks_below k Hk) as (Bu3 & Bd3 & _).
  repeat split; intros E; apply (uuid_at_inj s Hfresh) in E; try assumption;
    f_equal; try lia.
Qed.

Lemma rows_grouped_witness :
  (deviceId (row_at demo 3) = deviceId (row_at demo 9) ->
   deviceId (row_at demo 5) = deviceId (row_at demo 3)) /\
  (userId (row_at demo 3) = userId (row_at demo 9) ->
   userId (row_at demo 5) = userId (row_at demo 3)) /\
  (deviceId (row_at demo 3) = deviceId (row_at demo 9) ->
   userId (row_at demo 3) = userId (row_at demo 9)).
Proof.
  apply (rows_grouped demo fresh_demo 3 5 9).
  - lia.
  - vm_compute. reflexivity.
  - vm_compute. reflexivity.
  - vm_compute. reflexivity.
Defined.

(** ** The identifier generator *)

Lemma uuid4_eq (w : World) :
  Uuid.uuid4 w =
  (Ok (uuid_at (env w) (entropy_pos w)),
   mkWorld (env w) (rand_pos w) (S (entropy_pos w)) (clock_pos w)
           (io_pos w) (io_trace w) (csv_rows w)).
Proof. reflexivity. Qed.

(** X4. [gen_uuids count] is consumed on demand: a loop over it calls
    [uuid.uuid4()] once per iteration it starts.  For a body that draws no
    identifier itself, a loop that runs to its end has drawn exactly [count]
    identifiers, and a loop left by an exception has drawn at least one and
    at most [count]; over [gen_uuids 0] the body never runs. *)
Theorem gen_uuids_on_demand (count : nat) (body : Z -> M unit) (w : World) :
  (forall x w0, entropy_pos (snd (body x w0)) = entropy_pos w0) ->
  match for_in (gen_uuids count) body w with
  | (Ok _, w') => entropy_pos w' = (entropy_pos w + count)%nat
  | (Raise _, w') =>
      (entropy_pos w < entropy_pos w' <= entropy_pos w + count)%nat
  end /\
  for_in (gen_uuids 0) body w = (Ok tt, w).
Proof.
  intros Hbody. split; [|reflexivity].
  rewrite gen_uuids_repeat. revert w.
  induction count as [|n IH]; intros w; cbn [repeat for_in].
  - cbn. lia.
  - unfold bind at 1. rewrite uuid4_eq. unfold bind at 1.
    pose proof (Hbody (uuid_at (env w) (entropy_pos w))
                  (mkWorld (env w) (rand_pos w) (S (entropy_pos w))
                           (clock_pos w) (io_pos w) (io_trace w) (csv_rows w)))
      as Hb.
    destruct (body _ _) as [[[]|e] w1]; cbn [snd entropy_pos] in Hb.
    + specialize (IH w1).
      destruct (for_in (repeat Uuid.uuid4 n) body w1) as [[[]|e] w2]; lia.
    + lia.
Qed.

Lemma gen_uuids_on_demand_witness :
  match for_in (gen_uuids 3)
               (fun x => if x <? 2 ^ 127 then ret tt else raise KeyError)
               (boot demo) with
  | (Ok _, w') => entropy_pos w' = (entropy_pos (boot demo) + 3)%nat
  | (Raise _, w') =>
      (entropy_pos (boot demo) < entropy_pos w'
       <= entropy_pos (boot demo) + 3)%nat
  end /\
  for_in (gen_uuids 0)
         (fun x => if x <? 2 ^ 127 then ret tt else raise KeyError)
         (boot demo) = (Ok tt, boot demo).
Proof.
  apply (gen_uuids_on_demand 3
           (fun x => if x <? 2 ^ 127 then ret tt else raise KeyError)
           (boot demo)).
  intros x w0. destruct (x <? 2 ^ 127); reflexivity.
Defined.

(** ** What a run consumes *)

(** The sample environment with a file that cannot be opened. *)
Definition failing_open : Sources :=
  mkSources (rand_src demo) (entropy_src demo) (clock_src demo)
            (fun _ => false) 0%nat.

Lemma run_open_failed s :
  io_ok s 0 = false ->
  run s = (Raise OSError, mkWorld s 0 0 0 1 [EvOpen path false] []).
Proof.
  intros H. unfold run, main, File.with_open. now rewrite open_boot, H.
Qed.

(** X5. When the file cannot be opened, the run ends with OSError at once:
    it has asked the random generator, the clock and [uuid4] for nothing,
    handed nothing to the writer, and made no other file operation. *)
Theorem failed_open_draws_nothing (s : Sources) :
  io_ok s 0 = false ->
  fst (run s) = Raise OSError /\
  rand_pos (snd (run s)) = 0%nat /\
  entropy_pos (snd (run s)) = 0%nat /\
  clock_pos (snd (run s)) = 0%nat /\
  csv_rows (snd (run s)) = [] /\
  io_trace (snd (run s)) = [EvOpen path false] /\
  file_contents s (io_trace (snd (run s))) = None.
Proof.
  intros Hopen. rewrite (run_open_failed s Hopen). repeat split; reflexivity.
Qed.

Lemma failed_open_draws_nothing_witness :
  fst (run failing_open) = Raise OSError /\
  rand_pos (snd (run failing_open)) = 0%nat /\
  entropy_pos (snd (run failing_open)) = 0%nat /\
  clock_pos (snd (run failing_open)) = 0%nat /\
  csv_rows (snd (run failing_open)) = [] /\
  io_trace (snd (run failing_open)) = [EvOpen path false] /\
  file_contents failing_open (io_trace (snd (run failing_open))) = None.
Proof. apply (failed_open_draws_nothing failing_open). reflexivity. Defined.

(** X6. A run in which no file operation fails calls [uuid.uuid4()] 92
    times (4 users, 8 devices, 80 events), reads the clock 80 times, once
    per data row, and performs 83 file operations: one open, 81 writes, one
    close. *)
Theorem complete_run_resources (s : Sources) :
  (forall i, (i <= 82)%nat -> io_ok s i = true) ->
  entropy_pos (snd (run s)) = (4 + 4 * 2 + 4 * 2 * 10)%nat /\
  clock_pos (snd (run s)) = 80%nat /\
  io_pos (snd (run s)) = 83%nat /\
  List.length (io_trace (snd (run s))) = 83%nat /\
  count is_open (io_trace (snd (run s))) = 1%nat /\
  count is_close (io_trace (snd (run s))) = 1%nat /\
  List.length (written (io_trace (snd (run s)))) = 81%nat.
Proof.
  intros Hok.
  destruct (run_complete s Hok) as (_ & Hrows & Htr & _ & -> & -> & ->).
  pose proof (written_run s) as Hw. rewrite Hrows in Hw.
  rewrite Hw, Htr. unfold count.
  cbn [filter is_open is_close List.length].
  rewrite !filter_app, no_open_in_writes, no_close_in_writes.
  cbn [filter is_open is_close app List.length map].
  rewrite length_app, !length_map, length_table, length_expected_events.
  repeat split.
Qed.

Lemma complete_run_resources_witness :
  entropy_pos (snd (run demo)) = (4 + 4 * 2 + 4 * 2 * 10)%nat /\
  clock_pos (snd (run demo)) = 80%nat /\
  io_pos (snd (run demo)) = 83%nat /\
  List.length (io_trace (snd (run demo))) = 83%nat /\
  count is_open (io_trace (snd (run demo))) = 1%nat /\
  count is_close (io_trace (snd (run demo))) = 1%nat /\
  List.length (written (io_trace (snd (run demo)))) = 81%nat.
Proof. apply (complete_run_resources demo). intros i _. reflexivity. Defined.

(** ** One event *)

(** X7. The body of the innermost loop, from any state: it makes six draws
    and one clock reading before its single file operation, whether or not
    that write then succeeds, and draws no identifier the loop did not hand
    it.  When the write succeeds, the row logged carries the identifiers
    and the location it was given, unchanged; when the write fails, OSError
    leaves the body and no row is logged. *)
Theorem event_effects (u d e : Z) (g : string) (w : World) :
  rand_pos (snd (event u d g e w)) = (6 + rand_pos w)%nat /\
  clock_pos (snd (event u d g e w)) = S (clock_pos w) /\
  entropy_pos (snd (event u d g e w)) = entropy_pos w /\
  io_pos (snd (event u d g e w)) = S (io_pos w) /\
  List.length (io_trace (snd (event u d g e w))) =
    S (List.length (io_trace w)) /\
  (if io_ok (env w) (io_pos w)
   then fst (event u d g e w) = Ok tt /\
        exists ev,
          csv_rows (snd (event u d g e w)) = csv_rows w ++ [cells ev] /\
          userId ev = u /\ deviceId ev = d /\ eventId ev = e /\
          geoLocation ev = g
   else fst (event u d g e w) = Raise OSError /\
        csv_rows (snd (event u d g e w)) = csv_rows w).
Proof.
  destruct w as [s rp ep cp ip tr rows].
  cbv [event random_time random_expiry random_tempC random_humidityPct
       random_pressurePa Random.randint Random.randbelow Random.choice
       Random.random Random.draw PyTime.time Csv.writerow File.write
       File.io_step Csv.log_row bind ret
       env rand_pos entropy_pos clock_pos io_pos io_trace csv_rows].
  destruct (io_ok s ip);
    cbn [fst snd rand_pos clock_pos entropy_pos io_pos io_trace csv_rows];
    rewrite length_app; cbn [List.length];
    (repeat split; try reflexivity; try lia).
  eexists (mkEvent u d e g _ _ _ _ _). cbn [cells userId deviceId eventId
                                            geoLocation].
  repeat split; reflexivity.
Qed.

(** ** Identifiers by role *)

Lemma all_blocks_count :
  List.length
    (nodup Nat.eq_dec
       (map user_block (seq 0 80) ++ map device_block (seq 0 80) ++
        map event_block (seq 0 80))) = 92%nat /\
  List.length (nodup Nat.eq_dec (map device_block (seq 0 80))) = 8%nat.
Proof. split; vm_compute; reflexivity. Qed.

(** X8. When the identifiers drawn are pairwise distinct, no userId of the
    file is also a deviceId; and a run in which no file operation fails
    shows 8 distinct deviceIds and, over its three identifier columns, all
    92 identifiers it drew. *)
Theorem identifier_roles (s : Sources) :
  fresh s ->
  (forall r r' ev ev',
     In r (data_rows (snd (run s))) -> In r' (data_rows (snd (run s))) ->
     as_event r = Some ev -> as_event r' = Some ev' ->
     userId ev <> deviceId ev') /\
  ((forall i, (i <= 82)%nat -> io_ok s i = true) ->
   exists evs,
     data_rows (snd (run s)) = map cells evs /\
     List.length (nodup Z.eq_dec (map deviceId evs)) = 8%nat /\
     List.length
       (nodup Z.eq_dec
          (map userId evs ++ map deviceId evs ++ map eventId evs)) = 92%nat).
Proof.
  intros Hfresh. split.
  - intros r r' ev ev' H1 H2 P1 P2.
    apply data_in in H1, H2.
    destruct H1 as (n & Hn & ->). destruct H2 as (m & Hm & ->).
    rewrite as_event_cells in P1, P2.
    injection P1 as <-. injection P2 as <-.
    cbn [row_at event_at userId deviceId]. intros E.
    apply (uuid_at_inj s Hfresh) in E; try (apply blocks_below; assumption).
    destruct (Nat.le_ge_cases n m) as [Hle | Hle].
    + destruct (blocks_monotone n m Hle Hm) as (_ & _ & Hne & _).
      contradiction.
    + destruct (blocks_monotone m n Hle Hn) as (_ & _ & _ & Hne).
      contradiction.
  - intros Hok. destruct (run_complete s Hok) as (_ & Hrows & _).
    exists (expected_events s).
    split; [unfold data_rows; now rewrite Hrows|].
    unfold expected_events.
    rewrite userId_column, deviceId_column, eventId_column, <- !map_app.
    destruct all_blocks_count as [H92 H8].
    rewrite !(nodup_map_inj Nat.eq_dec Z.eq_dec), !length_map.
    + split; [exact H8 | exact H92].
    + apply uuid_inj_on; [exact Hfresh|].
      repeat (apply Forall_app; split);
        apply Forall_map_seq; intros n Hn; now apply blocks_below.
    + apply uuid_inj_on; [exact Hfresh|].
      apply Forall_map_seq; intros n Hn; now apply blocks_below.
Qed.

Lemma identifier_roles_witness :
  (forall r r' ev ev',
     In r (data_rows (snd (run demo))) -> In r' (data_rows (snd (run demo))) ->
     as_event r = Some ev -> as_event r' = Some ev' ->
     userId ev <> deviceId ev') /\
  ((forall i, (i <= 82)%nat -> io_ok demo i = true) ->
   exists evs,
     data_rows (snd (run demo)) = map cells evs /\
     List.length (nodup Z.eq_dec (map deviceId evs)) = 8%nat /\
     List.length
       (nodup Z.eq_dec
          (map userId evs ++ map deviceId evs ++ map eventId evs)) = 92%nat).
Proof. apply (identifier_roles demo). exact fresh_demo. Defined.

(** ** Temperature *)

(** X9. [random_tempC], from any state: it never raises, makes one draw,
    and returns a number of hundredths from 0.00 to 120.00.  Both ends are
    reached; 120.0 is, although [random.random()] stays below 1, because
    the product is rounded to a double and then to two decimals. *)
Theorem random_tempC_closed_range (w : World) :
  (exists c,
     random_tempC w =
       (Ok c, mkWorld (env w) (S (rand_pos w)) (entropy_pos w) (clock_pos w)
                      (io_pos w) (io_trace w) (csv_rows w)) /\
     0 <= c <= 12000) /\
  (exists w0, fst (random_tempC w0) = Ok 0) /\
  (exists w1, fst (random_tempC w1) = Ok 12000 /\
              rand_src (env w1) (rand_pos w1) mod 2 ^ 53 < 2 ^ 53).
Proof.
  split; [|split].
  - eexists. split; [reflexivity|].
    apply round2_mul_120_bounds, Z.mod_pos_bound. reflexivity.
  - exists (boot (mkSources (fun _ => 0) (fun _ => 0) (fun _ => 0%Q)
                            (fun _ => true) 0%nat)).
    vm_compute. reflexivity.
  - exists (boot (mkSources (fun _ => 2 ^ 53 - 1) (fun _ => 0) (fun _ => 0%Q)
                            (fun _ => true) 0%nat)).
    split; vm_compute; reflexivity.
Qed.

(** ** Commas *)

Fixpoint commas (s : string) : nat :=
  match s with
  | EmptyString => 0%nat
  | String c s' =>
      ((if Ascii.eqb c Csv.delimiter then 1 else 0) + commas s')%nat
  end.

Lemma commas_app a b : commas (a ++ b) = (commas a + commas b)%nat.
Proof.
  induction a as [|c a IH]; [reflexivity|].
  cbn [String.append commas]. rewrite IH. lia.
Qed.

Lemma commas_plain f : plain f -> commas f = 0%nat.
Proof.
  unfold plain. induction f as [|c f IH]; [reflexivity|].
  cbn [Csv.needs_quote commas]. intros H.
  apply orb_false_iff in H. destruct H as [Hc Hf].
  unfold Csv.special in Hc.
  apply orb_false_iff in Hc. destruct Hc as [Hc _].
  apply orb_false_iff in Hc. destruct Hc as [Hc _].
  apply orb_false_iff in Hc. destruct Hc as [-> _].
  now rewrite IH.
Qed.

(** X10. Every record the script hands to the file in a write call, header
    or data, holds exactly 8 commas and one line feed: no field is ever
    quoted, and the nine columns can be told apart by splitting at the
    commas.  When no file operation fails, the file is these 81 records
    one after the other. *)
Theorem eight_commas (s : Sources) :
  Forall (fun l => commas l = 8%nat /\ line_feeds l = 1%nat)
         (handed (io_trace (snd (run s)))) /\
  ((forall i, (i <= 82)%nat -> io_ok s i = true) ->
   List.length (handed (io_trace (snd (run s)))) = 81%nat /\
   file_contents s (io_trace (snd (run s))) =
     Some (String.concat "" (handed (io_trace (snd (run s)))))).
Proof.
  assert (forall rows,
            (exists rest, table s = rows ++ rest) ->
            Forall (fun l => commas l = 8%nat /\ line_feeds l = 1%nat)
                   (map (fun r => Csv.line (map Text.str r)) rows)) as Hall.
  { intros rows [rest Hrest]. apply Forall_forall. intros l Hl.
    apply in_map_iff in Hl. destruct Hl as (r & <- & Hr).
    assert (In r (table s)) as Hin by (rewrite Hrest; apply in_or_app; auto).
    rewrite table_flat in Hin. destruct Hin as [<- | Hin].
    - split; reflexivity.
    - apply in_map_iff in Hin. destruct Hin as (ev & <- & Hev).
      unfold expected_events in Hev. apply in_map_iff in Hev.
      destruct Hev as (n & <- & _).
      rewrite line_cells by apply row_at_plain.
      split; [|apply line_feeds_event_line, row_at_plain].
      unfold event_line. rewrite !commas_app.
      change (commas comma) with 1%nat.
      change (commas Csv.lineterminator) with 0%nat.
      rewrite !commas_plain
        by auto using str_uuid_plain, str_int_plain, repr_float_plain,
             row_at_plain.
      reflexivity. }
  split.
  - destruct (run_spec s) as [_ _ -> _ | _ _ -> _ _
                              | done row rest Ht _ _ _ -> _].
    + constructor.
    + change (EvOpen path true :: ?l) with ([EvOpen path true] ++ l).
      rewrite !handed_app, handed_ok_writes. cbn [handed flat_map app].
      rewrite app_nil_r. apply Hall. exists []. now rewrite app_nil_r.
    + change (EvOpen path true :: ?l) with ([EvOpen path true] ++ l).
      rewrite !handed_app, handed_ok_writes.
      cbn [handed flat_map app bad_write].
      change (map (fun r => Csv.line (map Text.str r)) done ++
              [Csv.line (map Text.str row)])
        with (map (fun r => Csv.line (map Text.str r)) done ++
              map (fun r => Csv.line (map Text.str r)) [row]).
      rewrite <- map_app. apply Hall. exists rest.
      now rewrite <- app_assoc.
  - intros Hok.
    destruct (run_complete s Hok) as (_ & _ & Htr & _).
    rewrite (file_complete s Hok), Htr.
    change (EvOpen path true :: ?l) with ([EvOpen path true] ++ l).
    rewrite !handed_app, handed_ok_writes. cbn [handed flat_map app].
    rewrite app_nil_r, length_map, length_table. split; [reflexivity|].
    rewrite table_flat. cbn [map]. unfold expected_events.
    now rewrite lines_of_events.
Qed.

(** ** The geoLocation column *)

Definition geo_values : list string :=
  flat_map (fun kv => map (fun city => ("Earth-US-" ++ fst kv ++ "-" ++ city)%string)
                          (snd kv))
           locations.

(** X11. The geoLocation of every data row is one of the seven texts
    Earth-US-state-city that the table of locations allows, a city always
    under its own state. *)
Theorem geoLocation_values (s : Sources) (row : list value) :
  In row (data_rows (snd (run s))) ->
  exists ev, as_event row = Some ev /\
    In (geoLocation ev) geo_values /\
    List.length geo_values = 7%nat.
Proof.
  intros H. apply data_in in H. destruct H as (n & _ & ->).
  exists (row_at s n). split; [apply as_event_cells|].
  split; [|reflexivity].
  cbn [row_at event_at geoLocation].
  destruct (geo_at_member s (geo_pos n))
    as (state & cities & city & Hs & Hc & ->).
  unfold geo_values. apply in_flat_map.
  exists (state, cities). split; [exact Hs|].
  cbn [fst snd]. apply in_map_iff. now exists city.
Qed.

Lemma geoLocation_values_witness :
  exists ev, as_event (nth 0 (data_rows (snd (run demo))) []) = Some ev /\
    In (geoLocation ev) geo_values /\
    List.length geo_values = 7%nat.
Proof.
  apply (geoLocation_values demo). vm_compute. left. reflexivity.
Defined.
